(** * Configuration blacklist and license callback watcher

    A shallow embedding of
      x-pack/libbeat/management/blacklist.go
      x-pack/libbeat/licenser/callback_watcher.go
    Go maps are [gmap]s; a [range] over a map is a loop over the entries in
    some iteration order, which is a permutation of [map_to_list]. *)

From Stdlib Require Import String Ascii ZArith List Bool Lia Permutation.
From stdpp Require Import gmap strings list fin_maps.

Local Open Scope string_scope.
Set Warnings "-register-all".

(** ** Go values shared by both packages *)

(** [error]: [fmt.Errorf] builds an [errorString], [errors.Wrap] a
    [withMessage] that keeps its cause. *)
Inductive error : Type :=
| errorString (msg : string)
| withMessage (cause : error) (msg : string).

(** A Go [(value, error)] result where exactly one side is set. *)
Inductive result (A : Type) : Type :=
| Ok (a : A)
| Fail (e : error).
Arguments Ok {A} a.
Arguments Fail {A} e.

(** A Go [interface{}] value, by its dynamic type: [any_map] is a
    [map[string]interface{}], [any_MapStr] a [common.MapStr] (a named type
    over the same maps) and [any_map_of_strings] a [map[string]string]. *)
Inductive any : Type :=
| any_nil
| any_string (s : string)
| any_int (n : Z)
| any_bool (b : bool)
| any_slice (l : list any)
| any_map (m : gmap string any)
| any_MapStr (m : gmap string any)
| any_map_of_strings (m : gmap string string).

(** The values that are maps with string keys, whatever their Go type. *)
Definition is_string_keyed_map (v : any) : bool :=
  match v with
  | any_map _ | any_MapStr _ | any_map_of_strings _ => true
  | _ => false
  end.

(** ** package strings *)
Module strings.

(** [strings.HasPrefix(s, prefix)]. *)
Definition HasPrefix (s prefix : string) : bool := String.prefix prefix s.

(** [strings.Contains(s, substr)]. *)
Fixpoint Contains (s substr : string) : bool :=
  if String.prefix substr s then true
  else match s with
       | EmptyString => false
       | String _ s' => Contains s' substr
       end.

(** [len(s)], a byte count. *)
Definition len (s : string) : nat := String.length s.

(** The slice expression [s[n:]] for [n <= len(s)]. *)
Fixpoint slice_from (s : string) (n : nat) : string :=
  match n, s with
  | O, _ => s
  | S n', String _ s' => slice_from s' n'
  | S _, EmptyString => EmptyString
  end.

(** Worker of [Split]: [skip] bytes of a separator that has just been
    recognised are still to be dropped, [cur] is the piece being read. *)
Fixpoint Split_from (sep : string) (skip : nat) (cur s : string) : list string :=
  match s with
  | EmptyString => [cur]
  | String ch s' =>
      match skip with
      | S k => Split_from sep k cur s'
      | O =>
          if String.prefix sep s
          then cur :: Split_from sep (String.length sep - 1) EmptyString s'
          else Split_from sep 0 (cur ++ String ch EmptyString) s'
      end
  end.

(** [strings.Split(s, sep)] for a non-empty separator. *)
Definition Split (s sep : string) : list string := Split_from sep 0 EmptyString s.

(** [strings.Join(elems, sep)]. *)
Fixpoint Join (elems : list string) (sep : string) : string :=
  match elems with
  | [] => EmptyString
  | [elem] => elem
  | elem :: rest => elem ++ sep ++ Join rest sep
  end.

End strings.

(** ** package match *)
Module match_.

(** [match.Matcher]: a compiled pattern, used only through [MatchString]. *)
Record Matcher : Type := { MatchString : string -> bool }.

End match_.

(** ** package common: the configuration tree *)
Module common.

(** Modelled from the spec: [common.Config] is declared outside the two
    source files; a configuration node is a dictionary, an array or a scalar
    that has a string representation. *)
Inductive Config : Type :=
| Scalar (repr : string)
| Dict (fields : list (string * Config))
| Array (elems : list Config).

Definition IsDict (c : Config) : bool :=
  match c with Dict _ => true | _ => false end.

Definition IsArray (c : Config) : bool :=
  match c with Array _ => true | _ => false end.

(** Modelled from the spec: the key names of a dictionary. *)
Definition GetFields (c : Config) : list string :=
  match c with Dict fields => map fst fields | _ => [] end.

(** Lookup of a key in the fields of a dictionary. *)
Fixpoint field_lookup (name : string) (fields : list (string * Config)) : option Config :=
  match fields with
  | [] => None
  | (k, v) :: rest => if String.eqb k name then Some v else field_lookup name rest
  end.

(** Modelled from the spec: the value at key [name] of a dictionary when
    [idx] is negative (the callers pass [-1]), the element [idx] of an array
    otherwise. *)
Definition value_at (c : Config) (name : string) (idx : Z) : option Config :=
  if (idx <? 0)%Z then
    match c with Dict fields => field_lookup name fields | _ => None end
  else
    match c with Array elems => nth_error elems (Z.to_nat idx) | _ => None end.

(** Modelled from the spec: "get string value at key/index"; it fails when
    nothing is there or when the value there is a nested structure. *)
Definition String (c : Config) (name : string) (idx : Z) : result string :=
  match value_at c name idx with
  | Some (Scalar repr) => Ok repr
  | Some _ => Fail (errorString "type mismatch")
  | None => Fail (errorString "missing field")
  end.

(** Modelled from the spec: "get child node at key/index"; [None] is the nil
    pointer, returned when nothing is there or the value there is a scalar. *)
Definition Child (c : Config) (name : string) (idx : Z) : option Config :=
  match value_at c name idx with
  | Some (Dict fields) => Some (Dict fields)
  | Some (Array elems) => Some (Array elems)
  | _ => None
  end.

(** Modelled from the spec: "count elements in array". *)
Definition CountField (c : Config) (name : string) : nat :=
  match c with Array elems => List.length elems | _ => 0 end.

(** The nodes directly below a node: the values of a dictionary, the
    elements of an array. *)
Definition children (c : Config) : list Config :=
  match c with
  | Scalar _ => []
  | Dict fields => map snd fields
  | Array elems => elems
  end.

(** Nesting depth of a tree: scalars are at depth 0. *)
Fixpoint depth (c : Config) : nat :=
  match c with
  | Scalar _ => 0
  | Dict fields =>
      S ((fix fields_depth (l : list (string * Config)) : nat :=
            match l with
            | [] => 0
            | (_, v) :: rest => Nat.max (depth v) (fields_depth rest)
            end) fields)
  | Array elems =>
      S ((fix elems_depth (l : list Config) : nat :=
            match l with
            | [] => 0
            | v :: rest => Nat.max (depth v) (elems_depth rest)
            end) elems)
  end.

(** The strings a tree holds: its key names and its scalars. *)
Fixpoint strings_of (c : Config) : list string :=
  match c with
  | Scalar repr => [repr]
  | Dict fields =>
      (fix fields_strings (l : list (string * Config)) : list string :=
         match l with
         | [] => []
         | (k, v) :: rest => k :: (strings_of v ++ fields_strings rest)%list
         end) fields
  | Array elems =>
      (fix elems_strings (l : list Config) : list string :=
         match l with
         | [] => []
         | v :: rest => (strings_of v ++ elems_strings rest)%list
         end) elems
  end.

(** The node a list of keys leads to, through nested dictionaries only. *)
Fixpoint descend (segments : list string) (c : Config) : option Config :=
  match segments with
  | [] => Some c
  | segment :: rest =>
      match c with
      | Dict fields =>
          match field_lookup segment fields with
          | Some v => descend rest v
          | None => None
          end
      | _ => None
      end
  end.

End common.

(** ** packages reload and api: configuration blocks *)
Module reload.

(** [reload.ConfigWithMeta]; only its [Config] field is read here. *)
Record ConfigWithMeta : Type := { Config : common.Config }.

End reload.

Module api.

(** Modelled from the spec: [api.ConfigBlock] is declared outside the two
    source files. A block is represented by the outcome of its method
    [ConfigWithMeta()], which either reads the block into the generic tree
    form or fails. *)
Record ConfigBlock : Type := { ConfigWithMeta : result reload.ConfigWithMeta }.

(** [api.ConfigBlocksWithType]: the blocks of one block type. *)
Record ConfigBlocksWithType : Type := {
  Type_ : string;
  Blocks : list ConfigBlock
}.

(** [api.ConfigBlocks]. *)
Definition ConfigBlocks : Type := list ConfigBlocksWithType.

End api.

(** ** package management: blacklist.go *)
Module management.

Import match_.

(** [ConfigBlacklist]. *)
Record ConfigBlacklist : Type := { patterns : gmap string Matcher }.

(** [ConfigBlacklistSettings]. *)
Record ConfigBlacklistSettings : Type := { Patterns : gmap string string }.

(** A counting loop [for count := n; count > 0; count-- { ... }] whose body
    is run at index [count-1] and may return [true] from the enclosing
    function; [None] is a body that ran out of fuel. *)
Fixpoint for_count_down (count : nat) (body : Z -> option bool) : option bool :=
  match count with
  | O => Some false
  | S count' =>
      match body (Z.of_nat count') with
      | Some true => Some true
      | Some false => for_count_down count' body
      | None => None
      end
  end.

(** The body of [isBlacklistedBlock] (the receiver is not used by the
    method); [self] stands for the recursive call, whose result is [None]
    when it ran out of fuel. *)
Definition isBlacklistedBlock_body (self : list string -> common.Config -> option bool)
    (pattern : Matcher) (segments : list string) (current : common.Config)
    : option bool :=
  let in_array : option bool :=
    if common.IsArray current then
      match segments with
      | [] =>
          (* List of elements, match strings *)
          for_count_down (common.CountField current EmptyString) (fun idx =>
            let traverse :=
              (* not a string, traverse *)
              match common.Child current EmptyString idx with
              | Some child => self segments child
              | None => Some false
              end in
            match common.String current EmptyString idx with
            | Ok val => if MatchString pattern val then Some true else traverse
            | Fail _ => traverse
            end)
      | _ :: _ =>
          (* List of elements, explode traversal to all of them *)
          for_count_down (common.CountField current EmptyString) (fun idx =>
            match common.Child current EmptyString idx with
            | Some child => self segments child
            | None => Some false
            end)
      end
    else Some false in
  if common.IsDict current then
    match segments with
    | [] =>
        if existsb (fun field => MatchString pattern field) (common.GetFields current)
        then Some true
        else in_array
    | [segment0] =>
        (* Check field in the dict *)
        match common.String current segment0 (-1) with
        | Ok val => Some (MatchString pattern val)
        | Fail _ =>
            (* not a string, traverse *)
            match common.Child current segment0 (-1) with
            | Some child => self (tl segments) child
            | None => Some false
            end
        end
    | segment0 :: _ =>
        (* traverse the tree *)
        match common.Child current segment0 (-1) with
        | Some child => self (tl segments) child
        | None => Some false
        end
    end
  else in_array.

(** [isBlacklistedBlock] with fuel: one unit per nested call, since the
    recursion goes through [Child]. *)
Fixpoint isBlacklistedBlock_fuel (fuel : nat) (pattern : Matcher)
    (segments : list string) (current : common.Config) : option bool :=
  match fuel with
  | O => None
  | S fuel' =>
      isBlacklistedBlock_body (isBlacklistedBlock_fuel fuel' pattern)
        pattern segments current
  end.

(** The method as a total function: the depth of the tree is fuel enough
    (see [Traversal.isBlacklistedBlock_fuel_enough]). *)
Definition isBlacklistedBlock (pattern : Matcher) (segments : list string)
    (current : common.Config) : bool :=
  match isBlacklistedBlock_fuel (S (common.depth current)) pattern segments current with
  | Some b => b
  | None => false
  end.

(** The ways the traversal can find a match, as a relation: a key name of a
    dictionary reached with no segment left, a value or a nested node below
    the key named by the first segment, a string element of an array reached
    with no segment left, or any element of an array with the same segments. *)
Inductive reaches (pattern : Matcher) : list string -> common.Config -> Prop :=
| reaches_key fields key :
    In key (map fst fields) -> MatchString pattern key = true ->
    reaches pattern [] (common.Dict fields)
| reaches_value fields segment repr :
    common.field_lookup segment fields = Some (common.Scalar repr) ->
    MatchString pattern repr = true ->
    reaches pattern [segment] (common.Dict fields)
| reaches_field fields segment rest child :
    common.field_lookup segment fields = Some child ->
    reaches pattern rest child ->
    reaches pattern (segment :: rest) (common.Dict fields)
| reaches_string_elem elems repr :
    In (common.Scalar repr) elems -> MatchString pattern repr = true ->
    reaches pattern [] (common.Array elems)
| reaches_elem elems segments e :
    In e elems -> reaches pattern segments e ->
    reaches pattern segments (common.Array elems).

(** The [range c.patterns] loop of [isBlacklisted], over the entries in
    iteration order. *)
Fixpoint range_patterns (blockType : string) (cfg : reload.ConfigWithMeta)
    (entries : list (string * Matcher)) : bool :=
  match entries with
  | [] => false
  | (field, pattern) :: rest =>
      let prefix := blockType in
      let prefix := if strings.Contains field "." then prefix ++ "." else prefix in
      if strings.HasPrefix field prefix then
        (* This pattern affects a field on this block type *)
        let field := strings.slice_from field (strings.len prefix) in
        let segments := if (0 <? strings.len field)%nat then strings.Split field "." else [] in
        if isBlacklistedBlock pattern segments (reload.Config cfg) then true
        else range_patterns blockType cfg rest
      else range_patterns blockType cfg rest
  end.

(** The prefix a registered [field] is compared with (lines 99-102). *)
Definition prefix_for (blockType field : string) : string :=
  let prefix := blockType in
  if strings.Contains field "." then prefix ++ "." else prefix.

(** The test of line 104: the pattern registered under [field] is applied to
    the blocks of type [blockType]. *)
Definition affects (blockType field : string) : bool :=
  strings.HasPrefix field (prefix_for blockType field).

(** The segments the traversal is started with (lines 106-110). *)
Definition segments_for (blockType field : string) : list string :=
  let field := strings.slice_from field (strings.len (prefix_for blockType field)) in
  if (0 <? strings.len field)%nat then strings.Split field "." else [].

(** The fields of the applied entries of a list, in order. *)
Definition applied (blockType : string) (entries : list (string * Matcher)) : list string :=
  map fst (List.filter (fun entry => affects blockType (fst entry)) entries).

(** One turn of the loop returns [true]: the entry is applied and its
    traversal reports a match. *)
Definition hits (blockType : string) (cfg : reload.ConfigWithMeta)
    (field : string) (pattern : Matcher) : bool :=
  affects blockType field
  && isBlacklistedBlock pattern (segments_for blockType field) (reload.Config cfg).

(** [range_patterns] together with the fields whose traversal was run, in the
    order they were run. *)
Fixpoint range_patterns_traced (blockType : string) (cfg : reload.ConfigWithMeta)
    (entries : list (string * Matcher)) : bool * list string :=
  match entries with
  | [] => (false, [])
  | (field, pattern) :: rest =>
      if affects blockType field then
        if isBlacklistedBlock pattern (segments_for blockType field) (reload.Config cfg)
        then (true, [field])
        else
          let (found, tested) := range_patterns_traced blockType cfg rest in
          (found, field :: tested)
      else range_patterns_traced blockType cfg rest
  end.

(** The relation the specification calls prefix owner: the path equals the
    block type or begins with the block type followed by a dot. *)
Definition prefix_owner (blockType path : string) : bool :=
  String.eqb path blockType || strings.HasPrefix path (blockType ++ ".").

(** [isBlacklisted]. *)
Definition isBlacklisted (c : ConfigBlacklist) (blockType : string)
    (block : api.ConfigBlock) : bool :=
  match api.ConfigWithMeta block with
  | Fail _ => false
  | Ok cfg => range_patterns blockType cfg (map_to_list (patterns c))
  end.

(** [Unpack]: [Flatten] is [common.MapStr.Flatten] and [Sprintf_s v] is
    [fmt.Sprintf("%s", v)]; both are library code. *)
Section Unpack.

Variable Flatten : gmap string any -> gmap string any.
Variable Sprintf_s : any -> string.

(** The [range common.MapStr(m).Flatten()] loop, over the entries in
    iteration order. *)
Fixpoint range_flattened (entries : list (string * any))
    (f : ConfigBlacklistSettings) : ConfigBlacklistSettings :=
  match entries with
  | [] => f
  | (k, v) :: rest =>
      range_flattened rest {| Patterns := <[k := Sprintf_s v]> (Patterns f) |}
  end.

(** [Unpack] on the receiver [f]: the receiver after the call and the
    returned error ([None] is [nil]). *)
Definition Unpack (f : ConfigBlacklistSettings) (from : any)
    : ConfigBlacklistSettings * option error :=
  match from with
  | any_map m =>
      (range_flattened (map_to_list (Flatten m)) {| Patterns := ∅ |}, None)
  | _ => (f, Some (errorString "wrong type, map is expected"))
  end.

End Unpack.

(** [NewConfigBlacklist]: [Compile] is [match.Compile], library code. *)
Section NewConfigBlacklist.

Variable Compile : string -> result Matcher.

(** The [range cfg.Patterns] loop, over the entries in iteration order, with
    the registry built so far; the result is the pair the function returns
    ([None] is [nil]). *)
Fixpoint range_compile (entries : list (string * string)) (list : ConfigBlacklist)
    : option ConfigBlacklist * option error :=
  match entries with
  | [] => (Some list, None)
  | (field, pattern) :: rest =>
      match Compile pattern with
      | Fail err =>
          (None,
           Some (withMessage err ("Given expression is not a valid regexp: " ++ pattern)))
      | Ok exp => range_compile rest {| patterns := <[field := exp]> (patterns list) |}
      end
  end.

(** The matcher a pattern compiles to, if any. *)
Definition compiled (pattern : string) : option Matcher :=
  match Compile pattern with Ok exp => Some exp | Fail _ => None end.

(** [NewConfigBlacklist] when the map is ranged over in the order [order]. *)
Definition NewConfigBlacklist_ranging (order : list (string * string))
    : option ConfigBlacklist * option error :=
  range_compile order {| patterns := ∅ |}.

Definition NewConfigBlacklist (cfg : ConfigBlacklistSettings)
    : option ConfigBlacklist * option error :=
  NewConfigBlacklist_ranging (map_to_list (Patterns cfg)).

End NewConfigBlacklist.

(** [Detect]: [ErrorType] and its value [ConfigError] are declared in another
    file of the package. *)
Section Detect.

Variable ErrorType : Type.
Variable ConfigError : ErrorType.

(** [Error]. *)
Record Error : Type := { Type_ : ErrorType; Err : error }.

(** [Errors]. *)
Definition Errors : Type := list Error.

(** The error [Detect] appends for a blacklisted block of type [blockType]. *)
Definition blacklisted_error (blockType : string) : Error :=
  {| Type_ := ConfigError;
     Err := errorString ("Config for '" ++ blockType ++ "' is blacklisted") |}.

Definition Detect (c : ConfigBlacklist) (configBlocks : api.ConfigBlocks) : Errors :=
  fold_left
    (fun errs configs =>
       fold_left
         (fun errs block =>
            if isBlacklisted c (api.Type_ configs) block
            then (errs ++ [blacklisted_error (api.Type_ configs)])%list
            else errs)
         (api.Blocks configs) errs)
    configBlocks [].

(** What one block adds to the result of [Detect]. *)
Definition detection (c : ConfigBlacklist) (blockType : string)
    (block : api.ConfigBlock) : Errors :=
  if isBlacklisted c blockType block then [blacklisted_error blockType] else [].

End Detect.

End management.

(** ** package licenser: callback_watcher.go *)
Module licenser.

(** Callbacks are Go function values: they act on the state of the program,
    [World], and the calls made are logged. Calling a nil function value
    panics. *)
Section CallbackWatcher.

Variable License : Type.
Variable World : Type.

(** A call of one of the two callbacks. *)
Inductive Call : Type :=
| CallNew (license : License)
| CallStopped.

(** The program state and the calls made so far, oldest first. *)
Record State : Type := { world : World; calls : list Call }.

(** How a method ends: it returns in a state, or it panics. *)
Inductive Outcome : Type :=
| Returned (st : State)
| Panicked.

(** [CallbackWatcher]; [None] is a nil function value. *)
Record CallbackWatcher : Type := {
  New : option (License -> World -> World);
  Stopped : option (World -> World)
}.

(** [f == nil] on a function value. *)
Definition is_nil {F : Type} (f : option F) : bool :=
  match f with None => true | Some _ => false end.

(** A call [f(args)] of a function value, logged as [call]. *)
Definition invoke (f : option (World -> World)) (call : Call) (st : State) : Outcome :=
  match f with
  | None => Panicked
  | Some body => Returned {| world := body (world st); calls := (calls st ++ [call])%list |}
  end.

Definition OnNewLicense (cb : CallbackWatcher) (license : License) (st : State) : Outcome :=
  if is_nil (New cb) then Returned st
  else invoke (option_map (fun new => new license) (New cb)) (CallNew license) st.

Definition OnManagerStopped (cb : CallbackWatcher) (st : State) : Outcome :=
  if is_nil (Stopped cb) then Returned st
  else invoke (Stopped cb) CallStopped st.

End CallbackWatcher.

Arguments CallNew {License} license.
Arguments CallStopped {License}.
Arguments Returned {License World} st.
Arguments Panicked {License World}.
Arguments world {License World} s.
Arguments calls {License World} s.
Arguments New {License World} c.
Arguments Stopped {License World} c.
Arguments OnNewLicense {License World} cb license st.
Arguments OnManagerStopped {License World} cb st.

End licenser.

(** ** Sample values *)
Module Samples.

Import match_ common.

(** A matcher that behaves like the regular expression made of the literal
    [s]: it matches the strings that contain [s]. *)
Definition literal (s : string) : Matcher :=
  {| MatchString := fun x => strings.Contains x s |}.

(** A matcher that matches every string, like the empty regular expression. *)
Definition anything : Matcher := {| MatchString := fun _ => true |}.

(** A compiler that rejects the pattern "(" and reads any other pattern as a
    literal. *)
Definition compile_literal (pattern : string) : result Matcher :=
  if String.eqb pattern "(" then Fail (errorString "missing closing )")
  else Ok (literal pattern).

(** A conversion to a string that keeps strings and writes the booleans as
    words. *)
Definition sprint (v : any) : string :=
  match v with
  | any_string s => s
  | any_bool true => "true"
  | any_bool false => "false"
  | _ => "%!s"
  end.

(** A flattening that suits maps with no nested map: it returns them as they
    are. *)
Definition flatten_flat (m : gmap string any) : gmap string any := m.

(** A block that reads into the tree [root]. *)
Definition block_of (root : Config) : api.ConfigBlock :=
  {| api.ConfigWithMeta := Ok {| reload.Config := root |} |}.

(** A block that cannot be read. *)
Definition malformed_block : api.ConfigBlock :=
  {| api.ConfigWithMeta := Fail (errorString "cannot unpack") |}.

(** A registry with three patterns for the block type "output". *)
Definition sample_blacklist : management.ConfigBlacklist :=
  {| management.patterns :=
       {[ "output" := literal "console";
          "output.hosts" := literal "example";
          "output.console.pretty" := literal "true" ]} |}.

(** The configuration [{console: {pretty: "true"}}]. *)
Definition sample_root : Config :=
  Dict [("console", Dict [("pretty", Scalar "true")])].

(** Settings whose patterns all compile, and settings with one that does
    not. *)
Definition good_settings : management.ConfigBlacklistSettings :=
  {| management.Patterns := {[ "output" := "console"; "output.hosts" := "example" ]} |}.

Definition bad_settings : management.ConfigBlacklistSettings :=
  {| management.Patterns := {[ "output" := "console"; "output.hosts" := "(" ]} |}.

End Samples.

(** * Theorems *)

(** ** The traversal [isBlacklistedBlock] *)
Module Traversal.

Import match_ common management.

Lemma field_lookup_depth name fields v :
  field_lookup name fields = Some v -> depth v < depth (Dict fields).
Proof.
  induction fields as [|[k w] rest IH]; simpl; [discriminate|].
  destruct (String.eqb k name).
  - intros [= ->]. lia.
  - intros H. specialize (IH H). simpl in IH. lia.
Qed.

Lemma nth_error_depth elems i v :
  nth_error elems i = Some v -> depth v < depth (Array elems).
Proof.
  revert i. induction elems as [|w rest IH]; intros [|i]; simpl; try discriminate.
  - intros [= ->]. lia.
  - intros H. specialize (IH _ H). simpl in IH. lia.
Qed.

Lemma value_at_depth c name idx v :
  value_at c name idx = Some v -> depth v < depth c.
Proof.
  unfold value_at. destruct (idx <? 0)%Z, c; try discriminate.
  - apply field_lookup_depth.
  - apply nth_error_depth.
Qed.

Lemma Child_value_at c name idx child :
  Child c name idx = Some child -> value_at c name idx = Some child.
Proof.
  unfold Child. destruct (value_at c name idx) as [[| |]|]; congruence.
Qed.

Lemma Child_depth c name idx child :
  Child c name idx = Some child -> depth child < depth c.
Proof. intros H. eapply value_at_depth, Child_value_at, H. Qed.

Lemma for_count_down_ext count body1 body2 :
  (forall i, i < count -> body1 (Z.of_nat i) = body2 (Z.of_nat i)) ->
  for_count_down count body1 = for_count_down count body2.
Proof.
  induction count as [|count IH]; intros Hext; simpl; [reflexivity|].
  rewrite <- (Hext count) by lia.
  rewrite IH by (intros; apply Hext; lia). reflexivity.
Qed.

Lemma for_count_down_some count body :
  (forall i, i < count -> is_Some (body (Z.of_nat i))) ->
  is_Some (for_count_down count body).
Proof.
  induction count as [|count IH]; intros Hs; simpl; [eauto|].
  destruct (Hs count) as [[|] ->]; [lia|eauto|].
  apply IH. intros; apply Hs; lia.
Qed.

Section Body.

Variables (pattern : Matcher) (current : Config).

(** Two recursive calls that agree on the children of [current] give the
    same body. *)
Lemma isBlacklistedBlock_body_ext self1 self2 segments :
  (forall segs name idx child,
      Child current name idx = Some child -> self1 segs child = self2 segs child) ->
  isBlacklistedBlock_body self1 pattern segments current =
  isBlacklistedBlock_body self2 pattern segments current.
Proof.
  intros Hext.
  assert (Hrec : forall segs name idx,
             match Child current name idx with
             | Some child => self1 segs child | None => Some false end =
             match Child current name idx with
             | Some child => self2 segs child | None => Some false end).
  { intros segs name idx. destruct (Child current name idx) eqn:Hc; eauto. }
  unfold isBlacklistedBlock_body.
  destruct segments as [|s0 [|s1 rest]]; cbn [tl];
    repeat first [ rewrite Hrec
                 | erewrite for_count_down_ext; [reflexivity|intros i _; cbv beta zeta] ];
    reflexivity.
Qed.

(** The body returns when the recursive calls on the children do. *)
Lemma isBlacklistedBlock_body_some self segments :
  (forall segs name idx child,
      Child current name idx = Some child -> is_Some (self segs child)) ->
  is_Some (isBlacklistedBlock_body self pattern segments current).
Proof.
  intros Hs.
  assert (Hrec : forall segs name idx,
             is_Some (match Child current name idx with
                      | Some child => self segs child | None => Some false end)).
  { intros segs name idx. destruct (Child current name idx) eqn:Hc; eauto. }
  unfold isBlacklistedBlock_body.
  repeat first
    [ apply Hrec
    | apply for_count_down_some; intros i _
    | match goal with
      | |- is_Some (Some _) => eauto
      | |- is_Some (if ?b then _ else _) => destruct b
      | |- is_Some (match ?s with [] => _ | _ :: _ => _ end) => destruct s
      | |- is_Some (match ?r with Ok _ => _ | Fail _ => _ end) => destruct r
      end ].
Qed.

End Body.

(** With more fuel than the tree is deep the traversal returns. *)
Lemma isBlacklistedBlock_fuel_returns fuel : forall pattern segments current,
  depth current < fuel ->
  is_Some (isBlacklistedBlock_fuel fuel pattern segments current).
Proof.
  induction fuel as [|fuel IH]; intros pattern segments current Hd; [lia|].
  cbn [isBlacklistedBlock_fuel]. apply isBlacklistedBlock_body_some.
  intros segs name idx child Hc. apply IH. apply Child_depth in Hc. lia.
Qed.

(** Fuel beyond the depth of the tree does not change the result. *)
Lemma isBlacklistedBlock_fuel_agree fuel1 : forall fuel2 pattern segments current,
  depth current < fuel1 -> depth current < fuel2 ->
  isBlacklistedBlock_fuel fuel1 pattern segments current =
  isBlacklistedBlock_fuel fuel2 pattern segments current.
Proof.
  induction fuel1 as [|fuel1 IH]; intros [|fuel2] pattern segments current H1 H2; try lia.
  cbn [isBlacklistedBlock_fuel]. apply isBlacklistedBlock_body_ext.
  intros segs name idx child Hc. apply Child_depth in Hc. apply IH; lia.
Qed.

Lemma isBlacklistedBlock_fuel_enough fuel pattern segments current :
  depth current < fuel ->
  isBlacklistedBlock_fuel fuel pattern segments current =
  Some (isBlacklistedBlock pattern segments current).
Proof.
  intros Hd. unfold isBlacklistedBlock.
  rewrite (isBlacklistedBlock_fuel_agree fuel (S (depth current))) by lia.
  destruct (isBlacklistedBlock_fuel_returns (S (depth current)) pattern segments current)
    as [b ->]; [lia|reflexivity].
Qed.

(** The equation of the method: its body, with itself as the recursive call. *)
Lemma isBlacklistedBlock_unfold pattern segments current :
  isBlacklistedBlock_body (fun segs child => Some (isBlacklistedBlock pattern segs child))
    pattern segments current =
  Some (isBlacklistedBlock pattern segments current).
Proof.
  rewrite <- (isBlacklistedBlock_fuel_enough (S (depth current))) by lia.
  cbn [isBlacklistedBlock_fuel]. apply isBlacklistedBlock_body_ext.
  intros segs name idx child Hc. symmetry. apply isBlacklistedBlock_fuel_enough.
  eapply Child_depth, Hc.
Qed.


Lemma isBlacklistedBlock_Scalar pattern segments repr :
  isBlacklistedBlock pattern segments (Scalar repr) = false.
Proof. destruct segments as [|s0 [|s1 rest]]; reflexivity. Qed.

(** A counting loop over the indices of a list is a disjunction over its
    elements. *)
Lemma for_count_down_existsb {A} (l : list A) (body : Z -> option bool) (test : A -> bool) :
  (forall i e, nth_error l i = Some e -> body (Z.of_nat i) = Some (test e)) ->
  for_count_down (List.length l) body = Some (existsb test l).
Proof.
  revert body. induction l as [|x l IH] using rev_ind; intros body Hb; [reflexivity|].
  rewrite length_app, Nat.add_1_r, existsb_app. cbn [for_count_down existsb].
  rewrite (Hb (List.length l) x), orb_false_r.
  2:{ rewrite nth_error_app2, Nat.sub_diag by lia. reflexivity. }
  destruct (test x); [now rewrite orb_true_r|]. rewrite orb_false_r.
  apply IH. intros i e Hi. apply Hb. rewrite nth_error_app1; [exact Hi|].
  apply nth_error_Some. congruence.
Qed.

Lemma value_at_Array elems name i :
  value_at (Array elems) name (Z.of_nat i) = nth_error elems i.
Proof.
  unfold value_at. destruct (Z.ltb_spec (Z.of_nat i) 0); [lia|].
  now rewrite Nat2Z.id.
Qed.

(** The fan-out over the elements of an array when segments remain. *)
Lemma isBlacklistedBlock_Array_cons pattern segment0 rest elems :
  isBlacklistedBlock pattern (segment0 :: rest) (Array elems) =
  existsb (isBlacklistedBlock pattern (segment0 :: rest)) elems.
Proof.
  apply (inj Some). rewrite <- isBlacklistedBlock_unfold.
  unfold isBlacklistedBlock_body. cbn [IsDict IsArray CountField].
  apply for_count_down_existsb. intros i e Hi.
  unfold Child. rewrite value_at_Array, Hi.
  destruct e; [now rewrite isBlacklistedBlock_Scalar|reflexivity..].
Qed.

Lemma isBlacklistedBlock_Dict_nil pattern fields :
  isBlacklistedBlock pattern [] (Dict fields) =
  existsb (fun field => MatchString pattern field) (map fst fields).
Proof.
  apply (inj Some). rewrite <- isBlacklistedBlock_unfold.
  unfold isBlacklistedBlock_body. cbn [IsDict IsArray GetFields].
  destruct (existsb _ _); reflexivity.
Qed.

Lemma isBlacklistedBlock_Dict_one pattern segment0 fields :
  isBlacklistedBlock pattern [segment0] (Dict fields) =
  match String (Dict fields) segment0 (-1) with
  | Ok val => MatchString pattern val
  | Fail _ =>
      match Child (Dict fields) segment0 (-1) with
      | Some child => isBlacklistedBlock pattern [] child
      | None => false
      end
  end.
Proof.
  apply (inj Some). rewrite <- isBlacklistedBlock_unfold.
  unfold isBlacklistedBlock_body. cbn [IsDict tl].
  destruct (String _ _ _); [reflexivity|].
  destruct (Child _ _ _); reflexivity.
Qed.


Lemma isBlacklistedBlock_Dict_more pattern segment0 segment1 rest fields :
  isBlacklistedBlock pattern (segment0 :: segment1 :: rest) (Dict fields) =
  match Child (Dict fields) segment0 (-1) with
  | Some child => isBlacklistedBlock pattern (segment1 :: rest) child
  | None => false
  end.
Proof.
  apply (inj Some). rewrite <- isBlacklistedBlock_unfold.
  unfold isBlacklistedBlock_body. cbn [IsDict tl].
  destruct (Child _ _ _); reflexivity.
Qed.

(** At an array with no segment left, an element matches when it is a
    string the pattern matches, or a nested structure whose traversal
    matches. *)
Lemma isBlacklistedBlock_Array_nil pattern elems :
  isBlacklistedBlock pattern [] (Array elems) =
  existsb (fun e => match e with
                    | Scalar repr => MatchString pattern repr
                    | _ => isBlacklistedBlock pattern [] e
                    end) elems.
Proof.
  apply (inj Some). rewrite <- isBlacklistedBlock_unfold.
  unfold isBlacklistedBlock_body. cbn [IsDict IsArray CountField].
  apply for_count_down_existsb. intros i e Hi.
  unfold String, Child. rewrite value_at_Array, Hi.
  destruct e; [|reflexivity..]. now destruct (MatchString pattern repr).
Qed.

Lemma Child_children c name idx child :
  Child c name idx = Some child -> In child (children c).
Proof.
  intros H. apply Child_value_at in H. revert H. unfold value_at.
  destruct (idx <? 0)%Z, c; try discriminate; cbn [children].
  - induction fields as [|[k w] rest IH]; simpl; [discriminate|].
    destruct (String.eqb k name); [intros [= ->]; now left|right; auto].
  - apply nth_error_In.
Qed.

(** The traversal on small trees. *)
Example secret_value_matches :
  isBlacklistedBlock (Samples.literal "abc") ["secret"] (Dict [("secret", Scalar "abc")]) = true
  /\ isBlacklistedBlock (Samples.literal "xyz") ["secret"] (Dict [("secret", Scalar "abc")]) = false.
Proof. split; reflexivity. Qed.

Example list_fans_out :
  isBlacklistedBlock (Samples.literal "secret") ["list"]
    (Dict [("list", Array [Scalar "x"; Scalar "y-secret"])]) = true
  /\ isBlacklistedBlock (Samples.literal "secret") ["list"]
    (Dict [("list", Array [Scalar "x"; Scalar "y"])]) = false.
Proof. split; reflexivity. Qed.

Example nested_segments_reach_key_names :
  isBlacklistedBlock (Samples.literal "c") ["a"; "b"]
    (Dict [("a", Dict [("b", Dict [("c", Scalar "v")])])]) = true
  /\ isBlacklistedBlock (Samples.literal "v") ["a"; "b"]
    (Dict [("a", Dict [("b", Dict [("c", Scalar "v")])])]) = false.
Proof. split; reflexivity. Qed.

(** C2: at a dictionary with exactly one segment left, when the value at
    that key has a string representation the result is whether the pattern
    matches that string; otherwise, when there is a child at that key, the
    result is that of the traversal of the child with the segments minus
    their head, the empty list; and when there is no child the result is no
    match. The second statement says the same on the tree itself. *)
Theorem dict_one_segment pattern segment0 fields :
  isBlacklistedBlock pattern [segment0] (Dict fields) =
    match String (Dict fields) segment0 (-1) with
    | Ok val => MatchString pattern val
    | Fail _ =>
        match Child (Dict fields) segment0 (-1) with
        | Some child => isBlacklistedBlock pattern [] child
        | None => false
        end
    end
  /\ isBlacklistedBlock pattern [segment0] (Dict fields) =
    match field_lookup segment0 fields with
    | Some (Scalar repr) => MatchString pattern repr
    | Some child => isBlacklistedBlock pattern [] child
    | None => false
    end.
Proof.
  split; [apply isBlacklistedBlock_Dict_one|].
  rewrite isBlacklistedBlock_Dict_one. unfold String, Child, value_at. cbn.
  destruct (field_lookup segment0 fields) as [[| |]|]; reflexivity.
Qed.

(** C3: at an array with one or more segments left, the result is the
    disjunction, over all the elements, of the traversal of the element with
    the same segments: none is consumed, and one matching element is enough. *)
Theorem array_fan_out pattern segment0 rest elems :
  isBlacklistedBlock pattern (segment0 :: rest) (Array elems) =
    existsb (isBlacklistedBlock pattern (segment0 :: rest)) elems
  /\ (forall e, In e elems ->
        isBlacklistedBlock pattern (segment0 :: rest) e = true ->
        isBlacklistedBlock pattern (segment0 :: rest) (Array elems) = true).
Proof.
  split; [apply isBlacklistedBlock_Array_cons|].
  intros e Hin He. rewrite isBlacklistedBlock_Array_cons.
  apply existsb_exists. eauto.
Qed.

(** C4: at a dictionary with no segment left, a match is reported exactly
    when the pattern matches one of the key names; the values stored at the
    keys play no part. *)
Theorem dict_no_segment_key_names pattern fields :
  (isBlacklistedBlock pattern [] (Dict fields) = true <->
     exists key, In key (GetFields (Dict fields)) /\ MatchString pattern key = true)
  /\ (forall fields', GetFields (Dict fields') = GetFields (Dict fields) ->
        isBlacklistedBlock pattern [] (Dict fields') =
        isBlacklistedBlock pattern [] (Dict fields)).
Proof.
  split.
  - rewrite isBlacklistedBlock_Dict_nil. apply existsb_exists.
  - intros fields' Hk. rewrite !isBlacklistedBlock_Dict_nil.
    cbn [GetFields] in Hk. now rewrite Hk.
Qed.

(** C8: the traversal terminates on every tree and every list of segments.
    A recursive call is made on a node that [Child] returned, which is
    directly below the current node and strictly less deep; so the nested
    calls are at most one more than the depth of the tree, and with that
    much fuel, or more, the traversal returns its result. *)
Theorem traversal_terminates pattern segments current :
  (exists found,
      isBlacklistedBlock_fuel (S (depth current)) pattern segments current = Some found)
  /\ (forall fuel, depth current < fuel ->
        isBlacklistedBlock_fuel fuel pattern segments current =
        Some (isBlacklistedBlock pattern segments current))
  /\ (forall name idx child, Child current name idx = Some child ->
        In child (children current) /\ depth child < depth current).
Proof.
  split; [|split].
  - exists (isBlacklistedBlock pattern segments current).
    apply isBlacklistedBlock_fuel_enough. lia.
  - intros fuel. apply isBlacklistedBlock_fuel_enough.
  - intros name idx child Hc. split;
      [eapply Child_children|eapply Child_depth]; exact Hc.
Qed.

End Traversal.

(** ** The evaluator: [isBlacklisted] and [Detect] *)
Module Evaluator.

Import match_ common management.

Section Block.

Variables (blockType : string) (cfg : reload.ConfigWithMeta).

(** The prefix test, by the shape of the path. *)
Lemma affects_dotted_path field :
  strings.Contains field "." = true ->
  affects blockType field = strings.HasPrefix field (blockType ++ ".").
Proof. intros H. unfold affects, prefix_for. now rewrite H. Qed.

Lemma affects_plain_path field :
  strings.Contains field "." = false ->
  affects blockType field = strings.HasPrefix field blockType.
Proof. intros H. unfold affects, prefix_for. now rewrite H. Qed.

(** For a path with a dot and a block type without one, the prefix test is
    the prefix-owner relation. *)
Lemma affects_prefix_owner field :
  strings.Contains field "." = true ->
  strings.Contains blockType "." = false ->
  affects blockType field = prefix_owner blockType field.
Proof.
  intros Hf Hb. rewrite affects_dotted_path by assumption. unfold prefix_owner.
  destruct (String.eqb_spec field blockType) as [->|_]; [congruence|reflexivity].
Qed.

Lemma range_patterns_cons field pattern rest :
  range_patterns blockType cfg ((field, pattern) :: rest) =
  if hits blockType cfg field pattern then true else range_patterns blockType cfg rest.
Proof.
  cbn [range_patterns]. unfold hits, affects, segments_for, prefix_for.
  destruct (strings.HasPrefix _ _); [|reflexivity].
  cbn [andb]. reflexivity.
Qed.

(** The loop is a disjunction over the entries. *)
Lemma range_patterns_existsb entries :
  range_patterns blockType cfg entries =
  existsb (fun entry => hits blockType cfg entry.1 entry.2) entries.
Proof.
  induction entries as [|[field pattern] rest IH]; [reflexivity|].
  rewrite range_patterns_cons, IH. cbn [existsb fst snd].
  destruct (hits _ _ _ _); reflexivity.
Qed.

Lemma existsb_Permutation {A} (f : A -> bool) l1 l2 :
  l1 ≡ₚ l2 -> existsb f l1 = existsb f l2.
Proof.
  induction 1; cbn [existsb]; try congruence.
  destruct (f x), (f y); reflexivity.
Qed.

(** The result does not depend on the order the map is ranged over. *)
Lemma range_patterns_Permutation order1 order2 :
  order1 ≡ₚ order2 ->
  range_patterns blockType cfg order1 = range_patterns blockType cfg order2.
Proof. intros Hp. rewrite !range_patterns_existsb. now apply existsb_Permutation. Qed.

Lemma range_patterns_traced_found entries :
  (range_patterns_traced blockType cfg entries).1 = range_patterns blockType cfg entries.
Proof.
  induction entries as [|[field pattern] rest IH]; [reflexivity|].
  rewrite range_patterns_cons. cbn [range_patterns_traced]. unfold hits.
  destruct (affects _ _); cbn [andb]; [|exact IH].
  destruct (isBlacklistedBlock _ _ _); [reflexivity|].
  destruct (range_patterns_traced _ _ rest). exact IH.
Qed.

(** The loop stops at the first entry that hits: the traversals run are
    those of the applied entries up to it. *)
Lemma range_patterns_traced_first_hit before field pattern after :
  (forall f p, In (f, p) before -> hits blockType cfg f p = false) ->
  hits blockType cfg field pattern = true ->
  range_patterns_traced blockType cfg (before ++ (field, pattern) :: after) =
  (true, applied blockType before ++ [field])%list.
Proof.
  intros Hb Hh. induction before as [|[f p] before IH]; cbn [app range_patterns_traced].
  - unfold hits in Hh. apply andb_true_iff in Hh as [-> ->]. reflexivity.
  - rewrite IH by (intros; apply Hb; now right).
    specialize (Hb f p (or_introl eq_refl)). unfold hits in Hb.
    unfold applied. cbn [List.filter fst].
    destruct (affects blockType f); [|reflexivity].
    cbn [andb] in Hb. rewrite Hb. reflexivity.
Qed.

Lemma applied_In f entries :
  In f (applied blockType entries) -> In f (map fst entries).
Proof.
  unfold applied. rewrite !in_map_iff. intros (e & <- & He).
  apply filter_In in He as [He _]. eauto.
Qed.

End Block.

(** [isBlacklisted] is the loop over the patterns in any iteration order. *)
Lemma isBlacklisted_any_order c blockType block cfg order :
  api.ConfigWithMeta block = Ok cfg ->
  order ≡ₚ map_to_list (patterns c) ->
  isBlacklisted c blockType block = range_patterns blockType cfg order.
Proof.
  intros Hcfg Hperm. unfold isBlacklisted. rewrite Hcfg.
  symmetry. now apply range_patterns_Permutation.
Qed.

Section Detect.

Variables (ErrorType : Type) (ConfigError : ErrorType).

Local Abbreviation Detect := (Detect ErrorType ConfigError).
Local Abbreviation blacklisted_error := (blacklisted_error ErrorType ConfigError).
Local Abbreviation detection := (detection ErrorType ConfigError).

Lemma fold_blocks c blockType blocks errs :
  fold_left
    (fun errs block =>
       if isBlacklisted c blockType block
       then (errs ++ [blacklisted_error blockType])%list else errs)
    blocks errs =
  (errs ++ flat_map (detection c blockType) blocks)%list.
Proof.
  revert errs. induction blocks as [|block blocks IH]; intros errs; cbn [fold_left flat_map].
  - now rewrite app_nil_r.
  - rewrite IH. unfold detection at 2.
    destruct (isBlacklisted c blockType block); [|reflexivity].
    now rewrite <- app_assoc.
Qed.

(** [Detect] is the concatenation, in order, of what each block adds. *)
Lemma Detect_flat_map c configBlocks :
  Detect c configBlocks =
  flat_map (fun configs => flat_map (detection c (api.Type_ configs)) (api.Blocks configs))
    configBlocks.
Proof.
  unfold management.Detect.
  enough (H : forall errs,
    fold_left
      (fun errs configs =>
         fold_left
           (fun errs block =>
              if isBlacklisted c (api.Type_ configs) block
              then (errs ++ [blacklisted_error (api.Type_ configs)])%list else errs)
           (api.Blocks configs) errs)
      configBlocks errs =
    (errs ++ flat_map (fun configs =>
               flat_map (detection c (api.Type_ configs)) (api.Blocks configs))
             configBlocks)%list) by apply (H []).
  induction configBlocks as [|configs configBlocks IH]; intros errs; cbn [fold_left flat_map].
  - now rewrite app_nil_r.
  - rewrite IH, fold_blocks. now rewrite <- app_assoc.
Qed.

Lemma Detect_one_block c blockType block :
  Detect c [ {| api.Type_ := blockType; api.Blocks := [block] |} ] =
  detection c blockType block.
Proof. rewrite Detect_flat_map. cbn. now rewrite !app_nil_r. Qed.


(** C5: when, in the order the patterns are ranged over, an applied pattern
    is the first whose traversal reports a match, the traversals run are
    those of the applied patterns up to it and of none after it; the block
    is blacklisted, and [Detect] records for it one detection, of type
    [ConfigError] and with the fixed message that names the block type. In
    any case [Detect] is the concatenation of what each block adds, which is
    at most one detection. *)
Theorem Detect_first_match c blockType block cfg before field pattern after :
  api.ConfigWithMeta block = Ok cfg ->
  map_to_list (patterns c) ≡ₚ before ++ (field, pattern) :: after ->
  (forall f p, In (f, p) before -> hits blockType cfg f p = false) ->
  hits blockType cfg field pattern = true ->
  range_patterns_traced blockType cfg (before ++ (field, pattern) :: after) =
    (true, applied blockType before ++ [field])%list
  /\ (forall f p, In (f, p) after ->
        ~ In f (range_patterns_traced blockType cfg
                  (before ++ (field, pattern) :: after)).2)
  /\ isBlacklisted c blockType block = true
  /\ Detect c [ {| api.Type_ := blockType; api.Blocks := [block] |} ] =
       [ {| Type_ := ConfigError;
            Err := errorString ("Config for '" ++ blockType ++ "' is blacklisted") |} ]
  /\ (forall configBlocks,
        Detect c configBlocks =
        flat_map (fun configs =>
                    flat_map (fun b => Detect c [ {| api.Type_ := api.Type_ configs;
                                                     api.Blocks := [b] |} ])
                      (api.Blocks configs))
          configBlocks)
  /\ (forall ty b,
        List.length (Detect c [ {| api.Type_ := ty; api.Blocks := [b] |} ]) <= 1).
Proof.
  intros Hcfg Hperm Hbefore Hhit.
  pose proof (range_patterns_traced_first_hit _ _ _ _ _ after Hbefore Hhit) as Hrun.
  assert (Hbl : isBlacklisted c blockType block = true).
  { unfold isBlacklisted. rewrite Hcfg.
    rewrite (range_patterns_Permutation _ _ _ _ Hperm).
    now rewrite <- range_patterns_traced_found, Hrun. }
  split; [exact Hrun|]. split; [|split; [exact Hbl|split; [|split]]].
  - intros f p Hin Htested. rewrite Hrun in Htested. cbn [snd] in Htested.
    pose proof (NoDup_fst_map_to_list (patterns c)) as Hnd.
    rewrite Hperm, fmap_app, fmap_cons in Hnd. cbn [fst] in Hnd.
    apply NoDup_app in Hnd as (_ & Hdisj & Hnd).
    apply NoDup_cons in Hnd as [Hfield _].
    assert (Hf : f ∈ after.*1).
    { apply list_elem_of_fmap. exists (f, p). split; [reflexivity|].
      now apply list_elem_of_In. }
    apply in_app_or in Htested as [Hb|[<-|[]]].
    + apply applied_In, list_elem_of_In in Hb.
      apply (Hdisj f Hb). now right.
    + contradiction.
  - rewrite Detect_one_block. unfold management.detection. now rewrite Hbl.
  - intros configBlocks. rewrite Detect_flat_map.
    apply flat_map_ext. intros configs. apply flat_map_ext. intros b.
    now rewrite Detect_one_block.
  - intros ty b. rewrite Detect_one_block. unfold management.detection.
    destruct (isBlacklisted c ty b); cbn; lia.
Qed.

(** C6: a block whose configuration cannot be read is not blacklisted and
    adds no detection, and the result of [Detect], which is defined on every
    batch, is the one of the batch without that block. *)
Theorem malformed_block_is_skipped c e blockType groups_before before after groups_after :
  isBlacklisted c blockType {| api.ConfigWithMeta := Fail e |} = false
  /\ Detect c [ {| api.Type_ := blockType;
                   api.Blocks := [ {| api.ConfigWithMeta := Fail e |} ] |} ] = []
  /\ Detect c (groups_before ++
               {| api.Type_ := blockType;
                  api.Blocks := before ++ {| api.ConfigWithMeta := Fail e |} :: after |}
               :: groups_after)%list =
     Detect c (groups_before ++
               {| api.Type_ := blockType; api.Blocks := before ++ after |}
               :: groups_after)%list.
Proof.
  split; [reflexivity|]. split; [reflexivity|].
  rewrite !Detect_flat_map, !flat_map_app. cbn [flat_map api.Blocks api.Type_].
  rewrite !flat_map_app. reflexivity.
Qed.

End Detect.


Import Samples.

(** An instance of [Detect_first_match]: three patterns, ranged over with the
    one that hits in the middle. *)
Lemma Detect_first_match_witness :
  range_patterns_traced "output" {| reload.Config := sample_root |}
    [("output.hosts", literal "example"); ("output", literal "console");
     ("output.console.pretty", literal "true")] = (true, ["output.hosts"; "output"])
  /\ Detect string "CONFIG_ERROR" sample_blacklist
       [ {| api.Type_ := "output"; api.Blocks := [block_of sample_root] |} ] =
     [ {| Type_ := "CONFIG_ERROR";
          Err := errorString "Config for 'output' is blacklisted" |} ].
Proof.
  assert (Hperm : map_to_list (patterns sample_blacklist) ≡ₚ
                  [("output.hosts", literal "example")] ++
                  ("output", literal "console") ::
                  [("output.console.pretty", literal "true")]).
  { vm_compute. apply (Permutation_cons_append [_; _]). }
  assert (Hbefore : forall f p, In (f, p) [("output.hosts", literal "example")] ->
                    hits "output" {| reload.Config := sample_root |} f p = false).
  { intros f p [[= <- <-]|[]]. reflexivity. }
  destruct (Detect_first_match string "CONFIG_ERROR" sample_blacklist "output"
              (block_of sample_root) _ _ _ _ _ eq_refl Hperm Hbefore eq_refl)
    as (Hrun & _ & _ & Hdetect & _).
  split; [exact Hrun|exact Hdetect].
Defined.

(** C1, at inputs where the code departs from it: the pattern registered
    under "outputx" is applied to a block of type "output", with the segment
    "x", although "outputx" is neither "output" nor begins with "output.",
    and it makes [Detect] report the block; and the pattern registered under
    "filebeat.inputs" is not applied to a block of type "filebeat.inputs",
    although the path equals the block type. *)
Theorem prefix_test_admits_other_paths :
  prefix_owner "output" "outputx" = false
  /\ affects "output" "outputx" = true
  /\ segments_for "output" "outputx" = ["x"]
  /\ isBlacklisted {| patterns := {[ "outputx" := literal "secret" ]} |} "output"
       (block_of (Dict [("x", Scalar "secret")])) = true
  /\ Detect string "CONFIG_ERROR" {| patterns := {[ "outputx" := literal "secret" ]} |}
       [ {| api.Type_ := "output";
            api.Blocks := [block_of (Dict [("x", Scalar "secret")])] |} ] =
     [ {| Type_ := "CONFIG_ERROR";
          Err := errorString "Config for 'output' is blacklisted" |} ]
  /\ prefix_owner "filebeat.inputs" "filebeat.inputs" = true
  /\ affects "filebeat.inputs" "filebeat.inputs" = false
  /\ isBlacklistedBlock (literal "paths") [] (Dict [("paths", Scalar "/var/log/*.log")]) = true
  /\ isBlacklisted {| patterns := {[ "filebeat.inputs" := literal "paths" ]} |}
       "filebeat.inputs" (block_of (Dict [("paths", Scalar "/var/log/*.log")])) = false.
Proof. repeat split; vm_compute; reflexivity. Qed.

End Evaluator.

(** ** The registry: [NewConfigBlacklist] and [Unpack] *)
Module Registry.

Import match_ management.

Section NewConfigBlacklist.

Variable Compile : string -> result Matcher.

(** When an entry does not compile the loop returns no registry and the
    wrapped error of such an entry. *)
Lemma range_compile_fails entries : forall list,
  (exists field pattern, In (field, pattern) entries /\ compiled Compile pattern = None) ->
  exists field pattern cause,
    In (field, pattern) entries /\ Compile pattern = Fail cause /\
    range_compile Compile entries list =
    (None, Some (withMessage cause ("Given expression is not a valid regexp: " ++ pattern))).
Proof.
  induction entries as [|[f p] rest IH]; intros list (field & pattern & Hin & Hc).
  - destruct Hin.
  - cbn [range_compile]. destruct (Compile p) as [exp|cause] eqn:Hp.
    + destruct (IH {| patterns := <[f:=exp]> (patterns list) |}) as (f' & p' & c' & Hin' & Hc' & Hr).
      { destruct Hin as [[= -> ->]|Hin]; [|eauto].
        unfold compiled in Hc. now rewrite Hp in Hc. }
      exists f', p', c'. split; [now right|]. split; assumption.
    + exists f, p, cause. split; [now left|]. split; [assumption|reflexivity].
Qed.

(** When every entry compiles the loop returns the registry extended with
    one compiled matcher per entry. *)
Lemma range_compile_succeeds entries : forall list,
  NoDup entries.*1 ->
  (forall field pattern, In (field, pattern) entries -> is_Some (compiled Compile pattern)) ->
  exists list',
    range_compile Compile entries list = (Some list', None) /\
    forall field,
      patterns list' !! field =
      match (list_to_map entries : gmap string string) !! field with
      | Some pattern => compiled Compile pattern
      | None => patterns list !! field
      end.
Proof.
  induction entries as [|[f p] rest IH]; intros list Hnd Hall.
  - exists list. split; [reflexivity|]. intros field. cbn [list_to_map foldr]. now rewrite lookup_empty.
  - cbn [range_compile]. destruct (Hall f p (or_introl eq_refl)) as [exp Hexp].
    unfold compiled in Hexp. destruct (Compile p) as [exp'|] eqn:Hp; [|discriminate].
    injection Hexp as ->.
    apply NoDup_cons in Hnd as [Hf Hnd].
    destruct (IH {| patterns := <[f:=exp]> (patterns list) |} Hnd) as (list' & Hr & Hl).
    { intros field pattern Hin. apply (Hall field). now right. }
    exists list'. split; [exact Hr|]. intros field. rewrite Hl.
    cbn [list_to_map foldr uncurry fst snd patterns].
    destruct (decide (f = field)) as [<-|Hne].
    + rewrite (not_elem_of_list_to_map_1 rest f Hf), !lookup_insert_eq.
      unfold compiled. now rewrite Hp.
    + rewrite !(lookup_insert_ne _ f field) by assumption. reflexivity.
Qed.


(** C7: whatever the order the patterns are ranged over, when a pattern of
    the settings does not compile, construction returns no registry and an
    error that wraps the error of the compiler and carries the pattern that
    failed; when every pattern compiles, it returns, without error, a
    registry that holds under each path of the settings, and under no other,
    the matcher its pattern compiles to. *)
Theorem NewConfigBlacklist_all_or_nothing cfg order :
  order ≡ₚ map_to_list (Patterns cfg) ->
  ((exists field pattern,
       Patterns cfg !! field = Some pattern /\ compiled Compile pattern = None) ->
   exists field pattern cause,
     Patterns cfg !! field = Some pattern /\ Compile pattern = Fail cause /\
     NewConfigBlacklist_ranging Compile order =
     (None, Some (withMessage cause
                    ("Given expression is not a valid regexp: " ++ pattern))))
  /\ ((forall field pattern,
         Patterns cfg !! field = Some pattern -> is_Some (compiled Compile pattern)) ->
      exists list,
        NewConfigBlacklist_ranging Compile order = (Some list, None) /\
        dom (patterns list) = dom (Patterns cfg) /\
        forall field,
          patterns list !! field = Patterns cfg !! field ≫= compiled Compile).
Proof.
  intros Hperm.
  assert (Hin : forall field pattern,
             In (field, pattern) order <-> Patterns cfg !! field = Some pattern).
  { intros field pattern.
    now rewrite <- list_elem_of_In, Hperm, elem_of_map_to_list. }
  assert (Hnd : NoDup order.*1).
  { rewrite Hperm. apply NoDup_fst_map_to_list. }
  assert (Hmap : (list_to_map order : gmap string string) = Patterns cfg).
  { rewrite (list_to_map_proper _ _ Hnd Hperm). apply list_to_map_to_list. }
  split.
  - intros (field & pattern & Hl & Hc).
    destruct (range_compile_fails order {| patterns := ∅ |}) as (f & p & cause & Hf & Hp & Hr).
    { exists field, pattern. split; [now apply Hin|exact Hc]. }
    exists f, p, cause. split; [now apply Hin|]. split; assumption.
  - intros Hall.
    destruct (range_compile_succeeds order {| patterns := ∅ |} Hnd) as (list & Hr & Hl).
    { intros field pattern Hf. apply (Hall field). now apply Hin. }
    assert (Hlookup : forall field,
               patterns list !! field = Patterns cfg !! field ≫= compiled Compile).
    { intros field. rewrite Hl, Hmap. cbn [patterns].
      destruct (Patterns cfg !! field); [reflexivity|apply lookup_empty]. }
    exists list. split; [exact Hr|]. split; [|exact Hlookup].
    apply set_eq. intros field. rewrite !elem_of_dom, Hlookup.
    destruct (Patterns cfg !! field) as [pattern|] eqn:Hp; cbn.
    + split; [eauto|]. intros _. now apply (Hall field).
    + split; intros [? [=]].
Qed.

End NewConfigBlacklist.

(** Instances of [NewConfigBlacklist_all_or_nothing]: settings that compile
    and settings that do not. *)
Lemma NewConfigBlacklist_all_or_nothing_witness :
  (exists list,
      NewConfigBlacklist Samples.compile_literal Samples.good_settings = (Some list, None)
      /\ patterns list !! "output.hosts" = Some (Samples.literal "example"))
  /\ (exists field pattern cause,
        Patterns Samples.bad_settings !! field = Some pattern
        /\ NewConfigBlacklist Samples.compile_literal Samples.bad_settings =
           (None, Some (withMessage cause
                          ("Given expression is not a valid regexp: " ++ pattern)))).
Proof.
  split.
  - destruct (NewConfigBlacklist_all_or_nothing Samples.compile_literal
                Samples.good_settings (map_to_list (Patterns Samples.good_settings))
                (Permutation_refl _)) as [_ Hgood].
    destruct Hgood as (list & Hr & _ & Hl).
    { intros field pattern Hp. apply elem_of_map_to_list in Hp.
      vm_compute in Hp. apply list_elem_of_In in Hp.
      destruct Hp as [[= <- <-]|[[= <- <-]|[]]]; vm_compute; eauto. }
    exists list. split; [exact Hr|]. rewrite Hl. reflexivity.
  - destruct (NewConfigBlacklist_all_or_nothing Samples.compile_literal
                Samples.bad_settings (map_to_list (Patterns Samples.bad_settings))
                (Permutation_refl _)) as [Hbad _].
    destruct Hbad as (field & pattern & cause & Hp & _ & Hr).
    { exists "output.hosts", "(". split; reflexivity. }
    exists field, pattern, cause. split; [exact Hp|exact Hr].
Defined.

Section Unpack.

Variable Flatten : gmap string any -> gmap string any.
Variable Sprintf_s : any -> string.

Lemma range_flattened_lookup entries : forall f key,
  NoDup entries.*1 ->
  Patterns (range_flattened Sprintf_s entries f) !! key =
  match (list_to_map entries : gmap string any) !! key with
  | Some v => Some (Sprintf_s v)
  | None => Patterns f !! key
  end.
Proof.
  induction entries as [|[k v] rest IH]; intros f key Hnd.
  - cbn [range_flattened list_to_map foldr]. now rewrite lookup_empty.
  - apply NoDup_cons in Hnd as [Hk Hnd].
    cbn [range_flattened]. rewrite IH by assumption.
    cbn [list_to_map foldr uncurry fst snd Patterns].
    destruct (decide (k = key)) as [<-|Hne].
    + now rewrite (not_elem_of_list_to_map_1 rest k Hk), !lookup_insert_eq.
    + now rewrite !(lookup_insert_ne _ k key) by assumption.
Qed.

(** The loop builds the flattened map with every value converted, in
    whatever order the map is ranged over. *)
Lemma range_flattened_fmap m order :
  order ≡ₚ map_to_list (Flatten m) ->
  range_flattened Sprintf_s order {| Patterns := ∅ |} =
  {| Patterns := Sprintf_s <$> Flatten m |}.
Proof.
  intros Hperm.
  assert (Hnd : NoDup order.*1).
  { rewrite Hperm. apply NoDup_fst_map_to_list. }
  assert (Hp : Patterns (range_flattened Sprintf_s order {| Patterns := ∅ |}) =
               Sprintf_s <$> Flatten m).
  { apply map_eq. intros key. rewrite range_flattened_lookup by assumption.
    rewrite (list_to_map_proper _ _ Hnd Hperm), list_to_map_to_list, lookup_fmap.
    cbn [Patterns]. destruct (Flatten m !! key); [reflexivity|apply lookup_empty]. }
  destruct (range_flattened _ _ _). cbn [Patterns] in Hp. now subst.
Qed.

(** C9, as amended: [Unpack] returns an error exactly when the dynamic type
    of the input is not [map[string]interface{}], so also on a map with
    string keys of another type, a [common.MapStr] or a [map[string]string];
    it then leaves the settings as they were. Otherwise it returns no error
    and replaces [Patterns] by the flattened map with every value converted
    to its string representation, in whatever order the flattened map is
    ranged over. *)
Theorem Unpack_wrong_type_or_flattened f from :
  ((Unpack Flatten Sprintf_s f from).2 <> None <-> forall m, from <> any_map m)
  /\ ((forall m, from <> any_map m) ->
      Unpack Flatten Sprintf_s f from =
      (f, Some (errorString "wrong type, map is expected")))
  /\ (forall m,
      Unpack Flatten Sprintf_s f (any_MapStr m) =
      (f, Some (errorString "wrong type, map is expected")))
  /\ (forall m,
      Unpack Flatten Sprintf_s f (any_map_of_strings m) =
      (f, Some (errorString "wrong type, map is expected")))
  /\ (forall m, from = any_map m ->
      Unpack Flatten Sprintf_s f from =
      ({| Patterns := Sprintf_s <$> Flatten m |}, None))
  /\ (forall m order, order ≡ₚ map_to_list (Flatten m) ->
      range_flattened Sprintf_s order {| Patterns := ∅ |} =
      {| Patterns := Sprintf_s <$> Flatten m |}).
Proof.
  split; [|split; [|split; [|split; [|split]]]].
  - destruct from as [| | | | |m|m|m]; cbn; split; try congruence.
    intros H. now destruct (H m).
  - intros H. destruct from as [| | | | |m|m|m]; try reflexivity.
    now destruct (H m).
  - reflexivity.
  - reflexivity.
  - intros m ->. cbn [Unpack]. now rewrite (range_flattened_fmap m).
  - apply range_flattened_fmap.
Qed.

End Unpack.

(** C9 as first stated fails: a [map[string]string] and a [common.MapStr]
    are maps with string keys, and [Unpack] returns the error on them and
    leaves the settings as they were. *)
Lemma Unpack_refuses_other_string_keyed_maps :
  is_string_keyed_map (any_map_of_strings {[ "output" := "console" ]}) = true
  /\ Unpack Samples.flatten_flat Samples.sprint Samples.good_settings
       (any_map_of_strings {[ "output" := "console" ]}) =
     (Samples.good_settings, Some (errorString "wrong type, map is expected"))
  /\ is_string_keyed_map (any_MapStr {[ "output" := any_string "console" ]}) = true
  /\ Unpack Samples.flatten_flat Samples.sprint Samples.good_settings
       (any_MapStr {[ "output" := any_string "console" ]}) =
     (Samples.good_settings, Some (errorString "wrong type, map is expected")).
Proof. repeat split. Qed.

End Registry.

(** ** The callback watcher *)
Module Watcher.

Import licenser.

(** C10: [OnNewLicense] returns in the state it was called in when [New] is
    nil, and otherwise calls [New] once, with the license; [OnManagerStopped]
    does the same with [Stopped]; neither ever calls a nil function value,
    which would panic. *)
Theorem callbacks_guarded {License World : Type}
    (new : License -> World -> World) (stopped : World -> World)
    (new' : option (License -> World -> World)) (stopped' : option (World -> World))
    (license : License) (st : State License World) :
  OnNewLicense {| New := None; Stopped := stopped' |} license st = Returned st
  /\ OnNewLicense {| New := Some new; Stopped := stopped' |} license st =
     Returned {| world := new license (world st);
                 calls := (calls st ++ [CallNew license])%list |}
  /\ OnManagerStopped {| New := new'; Stopped := None |} st = Returned st
  /\ OnManagerStopped {| New := new'; Stopped := Some stopped |} st =
     Returned {| world := stopped (world st);
                 calls := (calls st ++ [CallStopped])%list |}
  /\ OnNewLicense {| New := new'; Stopped := stopped' |} license st <> Panicked
  /\ OnManagerStopped {| New := new'; Stopped := stopped' |} st <> Panicked.
Proof.
  repeat split; try reflexivity.
  - destruct new'; discriminate.
  - destruct stopped'; discriminate.
Qed.

End Watcher.

(** ** More on the traversal *)
Module TraversalFacts.

Import match_ common management Traversal.

Lemma In_depth e elems : In e elems -> depth e < depth (Array elems).
Proof.
  intros Hin. apply In_nth_error in Hin as [i Hi]. eapply nth_error_depth, Hi.
Qed.

Lemma field_lookup_first key v fields :
  field_lookup key ((key, v) :: fields) = Some v.
Proof. cbn [field_lookup]. now rewrite String.eqb_refl. Qed.

Lemma existsb_pointwise {A} (f g : A -> bool) l :
  (forall x, f x = g x) -> existsb f l = existsb g l.
Proof. intros H. induction l as [|x l IH]; cbn; [reflexivity|]. now rewrite H, IH. Qed.

(** The one-segment and many-segment cases of a dictionary, on the tree. *)
Lemma isBlacklistedBlock_Dict_cons pattern segment0 rest fields :
  isBlacklistedBlock pattern (segment0 :: rest) (Dict fields) =
  match field_lookup segment0 fields with
  | Some (Scalar repr) =>
      match rest with [] => MatchString pattern repr | _ :: _ => false end
  | Some child => isBlacklistedBlock pattern rest child
  | None => false
  end.
Proof.
  destruct rest as [|segment1 rest].
  - rewrite isBlacklistedBlock_Dict_one. unfold String, Child, value_at. cbn.
    destruct (field_lookup segment0 fields) as [[| |]|]; reflexivity.
  - rewrite isBlacklistedBlock_Dict_more. unfold Child, value_at. cbn.
    destruct (field_lookup segment0 fields) as [[| |]|]; reflexivity.
Qed.

Lemma isBlacklistedBlock_Array pattern segments elems :
  isBlacklistedBlock pattern segments (Array elems) =
  existsb (fun e => match e, segments with
                    | Scalar repr, [] => MatchString pattern repr
                    | _, _ => isBlacklistedBlock pattern segments e
                    end) elems.
Proof.
  destruct segments as [|segment0 rest].
  - rewrite isBlacklistedBlock_Array_nil. apply existsb_pointwise.
    intros [| |]; reflexivity.
  - rewrite isBlacklistedBlock_Array_cons. apply existsb_pointwise.
    intros [| |]; reflexivity.
Qed.

(** Every way of finding a match makes the traversal return [true]. *)
Lemma reaches_sound pattern segments current :
  reaches pattern segments current ->
  isBlacklistedBlock pattern segments current = true.
Proof.
  induction 1 as [fields key Hk Hm|fields segment repr Hl Hm
                 |fields segment rest child Hl _ IH
                 |elems repr Hin Hm|elems segments e Hin _ IH].
  - rewrite isBlacklistedBlock_Dict_nil. apply existsb_exists. eauto.
  - now rewrite isBlacklistedBlock_Dict_cons, Hl.
  - rewrite isBlacklistedBlock_Dict_cons, Hl.
    destruct child; [now rewrite isBlacklistedBlock_Scalar in IH|exact IH..].
  - rewrite isBlacklistedBlock_Array. apply existsb_exists.
    exists (Scalar repr). split; assumption.
  - rewrite isBlacklistedBlock_Array. apply existsb_exists.
    exists e. split; [assumption|].
    destruct e; [now rewrite isBlacklistedBlock_Scalar in IH|exact IH..].
Qed.

(** When the traversal returns [true] it has found a match in one of these
    ways. *)
Lemma reaches_complete pattern : forall bound segments current,
  depth current < bound ->
  isBlacklistedBlock pattern segments current = true ->
  reaches pattern segments current.
Proof.
  induction bound as [|bound IH]; intros segments current Hd Hm; [lia|].
  destruct current as [repr|fields|elems].
  - now rewrite isBlacklistedBlock_Scalar in Hm.
  - destruct segments as [|segment0 rest].
    + rewrite isBlacklistedBlock_Dict_nil in Hm.
      apply existsb_exists in Hm as (key & Hk & Hm). eapply reaches_key; eauto.
    + rewrite isBlacklistedBlock_Dict_cons in Hm.
      destruct (field_lookup segment0 fields) as [child|] eqn:Hl; [|discriminate].
      pose proof (field_lookup_depth _ _ _ Hl) as Hc.
      destruct child as [repr| |].
      * destruct rest; [|discriminate]. eapply reaches_value; eauto.
      * eapply reaches_field; [exact Hl|]. apply IH; [lia|exact Hm].
      * eapply reaches_field; [exact Hl|]. apply IH; [lia|exact Hm].
  - rewrite isBlacklistedBlock_Array in Hm.
    apply existsb_exists in Hm as (e & Hin & Hm).
    pose proof (In_depth _ _ Hin) as Hc.
    destruct e as [repr| |].
    + destruct segments.
      * eapply reaches_string_elem; eauto.
      * now rewrite isBlacklistedBlock_Scalar in Hm.
    + eapply reaches_elem; [exact Hin|]. apply IH; [lia|].
      destruct segments; exact Hm.
    + eapply reaches_elem; [exact Hin|]. apply IH; [lia|].
      destruct segments; exact Hm.
Qed.


Lemma strings_of_key key fields :
  In key (map fst fields) -> In key (strings_of (Dict fields)).
Proof.
  induction fields as [|[k v] rest IH]; cbn [map fst strings_of]; [easy|].
  intros [->|Hin]; [now left|]. right. apply in_or_app. right. now apply IH.
Qed.

Lemma strings_of_field segment fields v s :
  field_lookup segment fields = Some v ->
  In s (strings_of v) -> In s (strings_of (Dict fields)).
Proof.
  induction fields as [|[k w] rest IH]; cbn [field_lookup strings_of]; [discriminate|].
  destruct (String.eqb k segment).
  - intros [= ->] Hs. right. apply in_or_app. now left.
  - intros Hl Hs. right. apply in_or_app. right. now apply IH.
Qed.

Lemma strings_of_elem e elems s :
  In e elems -> In s (strings_of e) -> In s (strings_of (Array elems)).
Proof.
  induction elems as [|w rest IH]; cbn [In strings_of]; [easy|].
  intros [->|Hin] Hs; apply in_or_app; [now left|right; now apply IH].
Qed.

Lemma reaches_string pattern segments current :
  reaches pattern segments current ->
  exists s, In s (strings_of current) /\ MatchString pattern s = true.
Proof.
  induction 1 as [fields key Hk Hm|fields segment repr Hl Hm
                 |fields segment rest child Hl _ (s & Hs & Hm)
                 |elems repr Hin Hm|elems segments e Hin _ (s & Hs & Hm)].
  - exists key. split; [now apply strings_of_key|exact Hm].
  - exists repr. split; [|exact Hm].
    eapply strings_of_field; [exact Hl|now left].
  - exists s. split; [|exact Hm]. eapply strings_of_field; eauto.
  - exists repr. split; [|exact Hm]. eapply strings_of_elem; [exact Hin|now left].
  - exists s. split; [|exact Hm]. eapply strings_of_elem; eauto.
Qed.

Lemma reaches_mono pattern1 pattern2 segments current :
  (forall s, MatchString pattern1 s = true -> MatchString pattern2 s = true) ->
  reaches pattern1 segments current -> reaches pattern2 segments current.
Proof.
  intros Hsub. induction 1; eauto using reaches.
Qed.

(** X1: the traversal returns [true] exactly when a match can be found in
    one of the five ways of [reaches]. *)
Theorem traversal_true_iff_reaches pattern segments current :
  isBlacklistedBlock pattern segments current = true <->
  reaches pattern segments current.
Proof.
  split; [|apply reaches_sound].
  apply (reaches_complete pattern (S (depth current))). lia.
Qed.

(** X2: at a dictionary with two or more segments left the traversal goes
    on, with the segments minus their head, in the nested node stored at the
    key named by the first segment; when a string is stored there the result
    is no match, and when the key of the first segment is missing the result
    is no match whatever the other segments are. *)
Theorem dict_more_segments pattern segment0 segment1 rest fields :
  isBlacklistedBlock pattern (segment0 :: segment1 :: rest) (Dict fields) =
    match field_lookup segment0 fields with
    | Some (Scalar _) => false
    | Some child => isBlacklistedBlock pattern (segment1 :: rest) child
    | None => false
    end
  /\ (field_lookup segment0 fields = None ->
      forall segments, isBlacklistedBlock pattern (segment0 :: segments) (Dict fields) = false).
Proof.
  split.
  - rewrite isBlacklistedBlock_Dict_cons.
    destruct (field_lookup segment0 fields) as [[| |]|]; reflexivity.
  - intros Hl segments. now rewrite isBlacklistedBlock_Dict_cons, Hl.
Qed.

(** X3: at an array with no segment left the result is the disjunction over
    the elements: a string element is tested against the pattern, a nested
    element is traversed with no segment. *)
Theorem array_no_segment pattern elems :
  isBlacklistedBlock pattern [] (Array elems) =
    existsb (fun e => match e with
                      | Scalar repr => MatchString pattern repr
                      | _ => isBlacklistedBlock pattern [] e
                      end) elems
  /\ (forall repr, In (Scalar repr) elems -> MatchString pattern repr = true ->
      isBlacklistedBlock pattern [] (Array elems) = true)
  /\ (forall e, In e elems -> isBlacklistedBlock pattern [] e = true ->
      isBlacklistedBlock pattern [] (Array elems) = true).
Proof.
  split; [apply isBlacklistedBlock_Array_nil|]. split.
  - intros repr Hin Hm. apply reaches_sound. eapply reaches_string_elem; eauto.
  - intros e Hin Hm. apply reaches_sound. eapply reaches_elem; [exact Hin|].
    apply (reaches_complete pattern (S (depth e))); [lia|exact Hm].
Qed.

(** X4: a node without content never matches, whatever the segments: a
    scalar, an empty dictionary, an empty array; and a path that goes on
    below a key that holds a string does not match. *)
Theorem no_match_without_content pattern segments :
  (forall repr, isBlacklistedBlock pattern segments (Scalar repr) = false)
  /\ isBlacklistedBlock pattern segments (Dict []) = false
  /\ isBlacklistedBlock pattern segments (Array []) = false
  /\ (forall key repr fields segment,
        isBlacklistedBlock pattern (key :: segment :: segments)
          (Dict ((key, Scalar repr) :: fields)) = false).
Proof.
  split; [intros repr; apply isBlacklistedBlock_Scalar|].
  split; [destruct segments; [apply isBlacklistedBlock_Dict_nil
                             |apply isBlacklistedBlock_Dict_cons]|].
  split; [apply isBlacklistedBlock_Array|].
  intros key repr fields segment.
  now rewrite isBlacklistedBlock_Dict_cons, field_lookup_first.
Qed.

Lemma descend_matches pattern segments : forall current node,
  segments <> [] ->
  descend segments current = Some node ->
  isBlacklistedBlock pattern segments current =
  match node with
  | Scalar repr => MatchString pattern repr
  | _ => isBlacklistedBlock pattern [] node
  end.
Proof.
  induction segments as [|segment rest IH]; intros current node Hne Hd; [easy|].
  cbn [descend] in Hd. destruct current as [|fields|]; try discriminate.
  destruct (field_lookup segment fields) as [v|] eqn:Hl; [|discriminate].
  rewrite isBlacklistedBlock_Dict_cons, Hl.
  destruct rest as [|segment1 rest].
  - injection Hd as ->. destruct node; reflexivity.
  - destruct v as [|fields'|]; try discriminate.
    apply IH; [easy|exact Hd].
Qed.

(** X5: when the segments, one or more, lead through nested dictionaries to
    a string, the result is whether the pattern matches that string; when
    they lead to a nested node, it is the result of the traversal of that
    node with no segment left. *)
Theorem path_to_node pattern segments current node :
  segments <> [] ->
  descend segments current = Some node ->
  isBlacklistedBlock pattern segments current =
  match node with
  | Scalar repr => MatchString pattern repr
  | _ => isBlacklistedBlock pattern [] node
  end.
Proof. intros Hne Hd. now apply descend_matches. Qed.

(** X6: an array is read as a bag: an array nested in an array gives the
    result of the array with its elements spliced in, and the order of the
    elements does not matter. *)
Theorem array_is_a_bag pattern segments :
  (forall inner rest,
      isBlacklistedBlock pattern segments (Array (Array inner :: rest)) =
      isBlacklistedBlock pattern segments (Array (inner ++ rest)))
  /\ (forall elems elems', elems ≡ₚ elems' ->
        isBlacklistedBlock pattern segments (Array elems) =
        isBlacklistedBlock pattern segments (Array elems')).
Proof.
  split.
  - intros inner rest. rewrite !isBlacklistedBlock_Array, existsb_app.
    cbn [existsb]. rewrite isBlacklistedBlock_Array.
    destruct segments; reflexivity.
  - intros elems elems' Hp. rewrite !isBlacklistedBlock_Array.
    now apply Evaluator.existsb_Permutation.
Qed.

(** X7: when the traversal reports a match, the pattern matches a string
    that the tree holds, a key name or a scalar. *)
Theorem match_is_on_a_string_of_the_tree pattern segments current :
  isBlacklistedBlock pattern segments current = true ->
  exists s, In s (strings_of current) /\ MatchString pattern s = true.
Proof.
  intros Hm. apply (reaches_string pattern segments).
  apply (reaches_complete pattern (S (depth current))); [lia|exact Hm].
Qed.

(** X8: a pattern that matches more strings blacklists more: when every
    string [pattern1] matches is matched by [pattern2], a match of
    [pattern1] is a match of [pattern2]. *)
Theorem traversal_monotone pattern1 pattern2 segments current :
  (forall s, MatchString pattern1 s = true -> MatchString pattern2 s = true) ->
  isBlacklistedBlock pattern1 segments current = true ->
  isBlacklistedBlock pattern2 segments current = true.
Proof.
  intros Hsub Hm. apply reaches_sound, (reaches_mono pattern1); [exact Hsub|].
  apply (reaches_complete pattern1 (S (depth current))); [lia|exact Hm].
Qed.

(** Instances of the theorems above that have hypotheses. *)
Lemma path_to_node_witness :
  isBlacklistedBlock (Samples.literal "true") ["console"; "pretty"] Samples.sample_root =
  MatchString (Samples.literal "true") "true".
Proof.
  apply (path_to_node (Samples.literal "true") ["console"; "pretty"]
           Samples.sample_root (Scalar "true")); [discriminate|reflexivity].
Defined.

Lemma match_is_on_a_string_of_the_tree_witness :
  exists s, In s (strings_of Samples.sample_root)
            /\ MatchString (Samples.literal "console") s = true.
Proof.
  apply (match_is_on_a_string_of_the_tree (Samples.literal "console") []
           Samples.sample_root). reflexivity.
Defined.

Lemma traversal_monotone_witness :
  isBlacklistedBlock Samples.anything ["console"; "pretty"] Samples.sample_root = true.
Proof.
  apply (traversal_monotone (Samples.literal "true") Samples.anything);
    [reflexivity|reflexivity].
Defined.

End TraversalFacts.

(** ** Paths, prefixes and segments *)
Module PathFacts.

Import strings management.

Lemma append_cons ch (a b : string) : String ch a ++ b = String ch (a ++ b).
Proof. reflexivity. Qed.

Lemma append_nil_l (b : string) : EmptyString ++ b = b.
Proof. reflexivity. Qed.

Lemma append_assoc (a b c : string) : (a ++ b) ++ c = a ++ (b ++ c).
Proof.
  induction a as [|ch a IH]; [reflexivity|].
  now rewrite !append_cons, IH.
Qed.

Lemma append_nil_r (a : string) : a ++ EmptyString = a.
Proof.
  induction a as [|ch a IH]; [reflexivity|]. now rewrite append_cons, IH.
Qed.

Lemma prefix_nil (s : string) : String.prefix EmptyString s = true.
Proof. now destruct s. Qed.

Lemma prefix_append (a b : string) : String.prefix a (a ++ b) = true.
Proof.
  induction a as [|ch a IH]; [apply prefix_nil|].
  rewrite append_cons. cbn [String.prefix].
  destruct (ascii_dec ch ch); [exact IH|congruence].
Qed.

Lemma prefix_split (a s : string) :
  String.prefix a s = true -> exists rest, s = a ++ rest.
Proof.
  revert s. induction a as [|ch a IH]; intros s Hp; [now exists s|].
  destruct s as [|ch' s]; [discriminate|]. cbn [String.prefix] in Hp.
  destruct (ascii_dec ch ch') as [<-|]; [|discriminate].
  destruct (IH s Hp) as [rest ->]. now exists rest.
Qed.

Lemma Contains_append (a b sub : string) :
  String.prefix sub b = true -> Contains (a ++ b) sub = true.
Proof.
  intros Hp. induction a as [|ch a IH].
  - rewrite append_nil_l. destruct b; cbn [Contains]; rewrite Hp; reflexivity.
  - rewrite append_cons. cbn [Contains].
    destruct (String.prefix sub (String ch (a ++ b))); [reflexivity|exact IH].
Qed.

Lemma slice_from_append (a b : string) : slice_from (a ++ b) (len a) = b.
Proof.
  induction a as [|ch a IH]; [now destruct b|].
  rewrite append_cons. exact IH.
Qed.

Lemma len_pos (s : string) : s <> EmptyString -> (0 <? len s)%nat = true.
Proof. destruct s; [congruence|reflexivity]. Qed.

(** A string without a dot, by its first character. *)
Lemma dot_free_cons ch s :
  Contains (String ch s) "." = false ->
  String.prefix "." (String ch s) = false /\ Contains s "." = false.
Proof.
  cbn [Contains]. destruct (String.prefix "." (String ch s)); [discriminate|auto].
Qed.

Lemma Split_from_dot_free s : forall cur,
  Contains s "." = false -> Split_from "." 0 cur s = [cur ++ s].
Proof.
  induction s as [|ch s IH]; intros cur Hs; cbn [Split_from].
  - now rewrite append_nil_r.
  - apply dot_free_cons in Hs as [-> Hs].
    rewrite IH by assumption. now rewrite append_assoc.
Qed.

Lemma Split_from_dot s t : forall cur,
  Contains s "." = false ->
  Split_from "." 0 cur (s ++ "." ++ t) = (cur ++ s) :: Split_from "." 0 EmptyString t.
Proof.
  induction s as [|ch s IH]; intros cur Hs.
  - rewrite append_nil_l, append_nil_r. change ("." ++ t) with (String "." t).
    cbn [Split_from]. destruct t; reflexivity.
  - apply dot_free_cons in Hs as [Hp Hs]. rewrite append_cons. cbn [Split_from].
    assert (Hp' : String.prefix "." (String ch (s ++ "." ++ t)) = false).
    { cbn [String.prefix] in *. destruct (ascii_dec "." ch); [|reflexivity].
      now rewrite prefix_nil in Hp. }
    rewrite Hp', IH by assumption. now rewrite append_assoc.
Qed.

(** Splitting the segments joined by dots gives them back. *)
Lemma Split_Join segments :
  segments <> [] ->
  Forall (fun segment => Contains segment "." = false) segments ->
  Split (Join segments ".") "." = segments.
Proof.
  unfold Split. induction segments as [|segment rest IH]; intros Hne Hall; [easy|].
  apply Forall_cons in Hall as [Hs Hall].
  destruct rest as [|segment' rest].
  - cbn [Join]. now rewrite Split_from_dot_free.
  - change (Join (segment :: segment' :: rest) ".")
      with (segment ++ "." ++ Join (segment' :: rest) ".").
    rewrite Split_from_dot by assumption. rewrite append_nil_l. f_equal.
    now apply IH.
Qed.

Lemma prefix_for_dotted blockType rest :
  prefix_for blockType (blockType ++ "." ++ rest) = blockType ++ ".".
Proof.
  unfold prefix_for. rewrite Contains_append; [reflexivity|].
  apply (prefix_append "." rest).
Qed.

Lemma affects_dotted blockType rest :
  affects blockType (blockType ++ "." ++ rest) = true.
Proof.
  unfold affects, HasPrefix. rewrite prefix_for_dotted, <- append_assoc.
  apply prefix_append.
Qed.

Lemma segments_for_dotted blockType rest :
  segments_for blockType (blockType ++ "." ++ rest) =
  if (0 <? len rest)%nat then Split rest "." else [].
Proof.
  unfold segments_for. rewrite prefix_for_dotted, <- append_assoc.
  now rewrite slice_from_append.
Qed.

Lemma segments_for_Join blockType segments :
  Forall (fun segment => Contains segment "." = false) segments ->
  Join segments "." <> EmptyString ->
  segments_for blockType (blockType ++ "." ++ Join segments ".") = segments.
Proof.
  intros Hall Hne. rewrite segments_for_dotted, len_pos by assumption.
  apply Split_Join; [|assumption]. intros ->. now apply Hne.
Qed.


Lemma affects_root blockType :
  Contains blockType "." = false ->
  affects blockType blockType = true /\ segments_for blockType blockType = [].
Proof.
  intros Hb. unfold affects, segments_for, prefix_for, HasPrefix. rewrite Hb. split.
  - rewrite <- (append_nil_r blockType) at 2. apply prefix_append.
  - rewrite <- (append_nil_r blockType) at 1. now rewrite slice_from_append.
Qed.

(** X9: a path made of the block type, a dot and one or more segments joined
    by dots is applied to the blocks of that type, and the traversal is
    started with exactly these segments. *)
Theorem dotted_path_gives_its_segments blockType segments :
  Forall (fun segment => Contains segment "." = false) segments ->
  Join segments "." <> EmptyString ->
  affects blockType (blockType ++ "." ++ Join segments ".") = true
  /\ segments_for blockType (blockType ++ "." ++ Join segments ".") = segments.
Proof.
  intros Hall Hne. split; [apply affects_dotted|now apply segments_for_Join].
Qed.

(** X10: the paths that target the root of a block: the block type followed
    by a dot and nothing else is applied with no segment, and so is the
    block type itself when it has no dot. *)
Theorem root_paths_have_no_segment blockType :
  (affects blockType (blockType ++ ".") = true
   /\ segments_for blockType (blockType ++ ".") = [])
  /\ (Contains blockType "." = false ->
      affects blockType blockType = true /\ segments_for blockType blockType = []).
Proof.
  split; [|apply affects_root].
  rewrite <- (append_nil_r (blockType ++ ".")), append_assoc.
  split; [apply affects_dotted|apply segments_for_dotted].
Qed.

(** X11: for a block type without a dot, every path that equals the block
    type or begins with the block type and a dot is applied; and a path with
    a dot is applied exactly when it begins with the block type and a dot. *)
Theorem prefix_test_on_plain_block_types blockType field :
  Contains blockType "." = false ->
  (prefix_owner blockType field = true -> affects blockType field = true)
  /\ (Contains field "." = true ->
      affects blockType field = prefix_owner blockType field).
Proof.
  intros Hb. split; [|intros Hf; now apply Evaluator.affects_prefix_owner].
  unfold prefix_owner. intros Ho. apply orb_true_iff in Ho as [He|Hp].
  - apply String.eqb_eq in He as ->. now apply affects_root.
  - apply prefix_split in Hp as [rest ->]. rewrite append_assoc.
    apply affects_dotted.
Qed.

(** Instances of the theorems above that have hypotheses. *)
Lemma dotted_path_gives_its_segments_witness :
  affects "output" "output.console.pretty" = true
  /\ segments_for "output" "output.console.pretty" = ["console"; "pretty"].
Proof.
  apply (dotted_path_gives_its_segments "output" ["console"; "pretty"]).
  - repeat constructor.
  - discriminate.
Defined.

Lemma prefix_test_on_plain_block_types_witness :
  (prefix_owner "output" "output.hosts" = true -> affects "output" "output.hosts" = true)
  /\ (Contains "output.hosts" "." = true ->
      affects "output" "output.hosts" = prefix_owner "output" "output.hosts").
Proof.
  apply (prefix_test_on_plain_block_types "output" "output.hosts"). reflexivity.
Defined.

End PathFacts.

(** ** More on the evaluator *)
Module EvaluatorFacts.

Import match_ common management Evaluator.

Lemma isBlacklisted_hits c blockType block :
  isBlacklisted c blockType block = true <->
  exists cfg field pattern,
    api.ConfigWithMeta block = Ok cfg /\ patterns c !! field = Some pattern /\
    hits blockType cfg field pattern = true.
Proof.
  unfold isBlacklisted. destruct (api.ConfigWithMeta block) as [cfg|e].
  - rewrite range_patterns_existsb, existsb_exists. split.
    + intros ([field pattern] & Hin & Hh). exists cfg, field, pattern.
      split; [reflexivity|]. split; [|exact Hh].
      now apply elem_of_map_to_list, list_elem_of_In.
    + intros (cfg' & field & pattern & [= <-] & Hl & Hh).
      exists (field, pattern). split; [|exact Hh].
      now apply list_elem_of_In, elem_of_map_to_list.
  - split; [discriminate|]. now intros (cfg & field & pattern & [=] & _).
Qed.

(** X12: a block is blacklisted exactly when it can be read and the registry
    holds a pattern that is applied to its type and whose traversal matches;
    the order in which the registry is ranged over does not change the
    result. *)
Theorem blacklisted_iff_some_pattern_hits c blockType block :
  (isBlacklisted c blockType block = true <->
   exists cfg field pattern,
     api.ConfigWithMeta block = Ok cfg /\ patterns c !! field = Some pattern /\
     hits blockType cfg field pattern = true)
  /\ (forall cfg order,
        api.ConfigWithMeta block = Ok cfg ->
        order ≡ₚ map_to_list (patterns c) ->
        range_patterns blockType cfg order = isBlacklisted c blockType block).
Proof.
  split; [apply isBlacklisted_hits|].
  intros cfg order Hcfg Hperm. symmetry. now apply isBlacklisted_any_order.
Qed.

(** X13: a registry with more patterns blacklists more: a block blacklisted
    by a registry is blacklisted by every registry that extends it. *)
Theorem larger_registry_blacklists_more c c' blockType block :
  patterns c ⊆ patterns c' ->
  isBlacklisted c blockType block = true ->
  isBlacklisted c' blockType block = true.
Proof.
  intros Hsub Hb. apply isBlacklisted_hits in Hb as (cfg & field & pattern & Hc & Hl & Hh).
  apply isBlacklisted_hits. exists cfg, field, pattern.
  split; [exact Hc|]. split; [|exact Hh]. eapply lookup_weaken; eauto.
Qed.

(** X14: when no path of the registry passes the prefix test for a block
    type, no block of that type is blacklisted, whatever it holds. *)
Theorem unapplied_patterns_never_blacklist c blockType block :
  (forall field pattern, patterns c !! field = Some pattern ->
                         affects blockType field = false) ->
  isBlacklisted c blockType block = false.
Proof.
  intros Hno. apply not_true_is_false. intros Hb.
  apply isBlacklisted_hits in Hb as (cfg & field & pattern & _ & Hl & Hh).
  unfold hits in Hh. now rewrite (Hno field pattern Hl) in Hh.
Qed.


Section Detect.

Variables (ErrorType : Type) (ConfigError : ErrorType).

Local Abbreviation Detect := (Detect ErrorType ConfigError).
Local Abbreviation blacklisted_error := (blacklisted_error ErrorType ConfigError).
Local Abbreviation detection := (detection ErrorType ConfigError).

(** X15: [Detect] on a batch made of two batches is the detections of the
    first followed by those of the second, and so it is for the blocks of
    one group. *)
Theorem Detect_of_two_batches c batch1 batch2 :
  Detect c (batch1 ++ batch2)%list = (Detect c batch1 ++ Detect c batch2)%list
  /\ (forall blockType blocks1 blocks2,
        Detect c [ {| api.Type_ := blockType; api.Blocks := (blocks1 ++ blocks2)%list |} ] =
        (Detect c [ {| api.Type_ := blockType; api.Blocks := blocks1 |} ] ++
         Detect c [ {| api.Type_ := blockType; api.Blocks := blocks2 |} ])%list).
Proof.
  split.
  - rewrite !Detect_flat_map. apply flat_map_app.
  - intros blockType blocks1 blocks2. rewrite !Detect_flat_map.
    cbn [flat_map api.Blocks api.Type_]. rewrite !app_nil_r. apply flat_map_app.
Qed.

Lemma In_Detect c batch e :
  In e (Detect c batch) <->
  exists configs block,
    In configs batch /\ In block (api.Blocks configs) /\
    isBlacklisted c (api.Type_ configs) block = true /\
    e = blacklisted_error (api.Type_ configs).
Proof.
  rewrite Detect_flat_map, in_flat_map. split.
  - intros (configs & Hc & He). apply in_flat_map in He as (block & Hb & He).
    unfold management.detection in He.
    destruct (isBlacklisted c (api.Type_ configs) block) eqn:Hbl; [|destruct He].
    destruct He as [<-|[]]. exists configs, block. auto.
  - intros (configs & block & Hc & Hb & Hbl & ->).
    exists configs. split; [exact Hc|]. apply in_flat_map.
    exists block. split; [exact Hb|].
    unfold management.detection. rewrite Hbl. now left.
Qed.

(** X16: the detections of a batch are the errors of its blacklisted blocks:
    an error is in the result exactly when it is the error of the type of a
    group that holds a blacklisted block; so the result is empty exactly
    when no block of the batch is blacklisted. *)
Theorem Detect_reports_the_blacklisted_blocks c batch :
  (forall e,
      In e (Detect c batch) <->
      exists configs block,
        In configs batch /\ In block (api.Blocks configs) /\
        isBlacklisted c (api.Type_ configs) block = true /\
        e = {| Type_ := ConfigError;
               Err := errorString
                        ("Config for '" ++ api.Type_ configs ++ "' is blacklisted") |})
  /\ (Detect c batch = [] <->
      forall configs block,
        In configs batch -> In block (api.Blocks configs) ->
        isBlacklisted c (api.Type_ configs) block = false).
Proof.
  split; [intros e; apply In_Detect|]. split.
  - intros Hnil configs block Hc Hb. apply not_true_is_false. intros Hbl.
    assert (Hin : In (blacklisted_error (api.Type_ configs)) (Detect c batch)).
    { apply In_Detect. exists configs, block. auto. }
    rewrite Hnil in Hin. destruct Hin.
  - intros Hno. destruct (Detect c batch) as [|e rest] eqn:Hd; [reflexivity|].
    assert (Hin : In e (Detect c batch)) by (rewrite Hd; now left).
    apply In_Detect in Hin as (configs & block & Hc & Hb & Hbl & _).
    now rewrite (Hno configs block Hc Hb) in Hbl.
Qed.

(** X17: [Detect] returns as many detections as the batch has blacklisted
    blocks, so never more than it has blocks. *)
Theorem Detect_counts_the_blacklisted_blocks c batch :
  List.length (Detect c batch) =
    list_sum (map (fun configs =>
                     List.length (List.filter (isBlacklisted c (api.Type_ configs))
                                    (api.Blocks configs))) batch)
  /\ List.length (Detect c batch) <=
     list_sum (map (fun configs => List.length (api.Blocks configs)) batch).
Proof.
  assert (Hgroup : forall blockType blocks,
             List.length (flat_map (detection c blockType) blocks) =
             List.length (List.filter (isBlacklisted c blockType) blocks)).
  { intros blockType blocks. induction blocks as [|block blocks IH]; [reflexivity|].
    cbn [flat_map List.filter]. rewrite length_app, IH.
    unfold management.detection.
    destruct (isBlacklisted c blockType block); reflexivity. }
  assert (Hcount : List.length (Detect c batch) =
    list_sum (map (fun configs =>
                     List.length (List.filter (isBlacklisted c (api.Type_ configs))
                                    (api.Blocks configs))) batch)).
  { rewrite Detect_flat_map. induction batch as [|configs batch IH]; [reflexivity|].
    unfold list_sum in *. cbn [flat_map map fold_right].
    now rewrite length_app, Hgroup, IH. }
  split; [exact Hcount|]. rewrite Hcount. clear Hcount.
  unfold list_sum.
  induction batch as [|configs batch IH]; cbn [map fold_right]; [lia|].
  pose proof (filter_length_le (isBlacklisted c (api.Type_ configs)) (api.Blocks configs)).
  lia.
Qed.

(** X18: from the registry to the result: when the registry holds a pattern
    under the block type, a dot and segments joined by dots, and these
    segments lead, through the dictionaries of a block of that type, to a
    string the pattern matches, the block is blacklisted and [Detect]
    reports it; and when the registry holds this pattern only, the block is
    blacklisted exactly when the pattern matches that string. *)
Theorem blacklisted_value_is_detected c blockType block cfg segments pattern repr :
  api.ConfigWithMeta block = Ok cfg ->
  Forall (fun segment => strings.Contains segment "." = false) segments ->
  strings.Join segments "." <> EmptyString ->
  descend segments (reload.Config cfg) = Some (Scalar repr) ->
  (patterns c !! (blockType ++ "." ++ strings.Join segments ".") = Some pattern ->
   MatchString pattern repr = true ->
   isBlacklisted c blockType block = true
   /\ Detect c [ {| api.Type_ := blockType; api.Blocks := [block] |} ] =
      [ {| Type_ := ConfigError;
           Err := errorString ("Config for '" ++ blockType ++ "' is blacklisted") |} ])
  /\ isBlacklisted
       {| patterns := {[ blockType ++ "." ++ strings.Join segments "." := pattern ]} |}
       blockType block = MatchString pattern repr.
Proof.
  intros Hcfg Hall Hne Hd.
  assert (Hsegs : segments <> []) by (intros ->; now apply Hne).
  assert (Hh : hits blockType cfg (blockType ++ "." ++ strings.Join segments ".") pattern =
               MatchString pattern repr).
  { unfold hits. rewrite PathFacts.affects_dotted, PathFacts.segments_for_Join by assumption.
    cbn [andb]. now rewrite (TraversalFacts.descend_matches _ _ _ _ Hsegs Hd). }
  split.
  - intros Hl Hm.
    assert (Hbl : isBlacklisted c blockType block = true).
    { apply isBlacklisted_hits.
      exists cfg, (blockType ++ "." ++ strings.Join segments "."), pattern.
      split; [exact Hcfg|]. split; [exact Hl|]. now rewrite Hh. }
    split; [exact Hbl|].
    rewrite Detect_one_block. unfold management.detection. now rewrite Hbl.
  - unfold isBlacklisted. rewrite Hcfg. cbn [patterns].
    rewrite map_to_list_singleton, range_patterns_cons, Hh.
    now destruct (MatchString pattern repr).
Qed.

End Detect.

(** Instances of the theorems above that have hypotheses. *)
Lemma larger_registry_blacklists_more_witness :
  isBlacklisted Samples.sample_blacklist "output" (Samples.block_of Samples.sample_root) = true.
Proof.
  apply (larger_registry_blacklists_more
           {| patterns := {[ "output.hosts" := Samples.literal "example";
                             "output.console.pretty" := Samples.literal "true" ]} |}
           Samples.sample_blacklist).
  - apply insert_subseteq. reflexivity.
  - reflexivity.
Defined.

Lemma unapplied_patterns_never_blacklist_witness :
  isBlacklisted Samples.sample_blacklist "filebeat"
    (Samples.block_of Samples.sample_root) = false.
Proof.
  apply unapplied_patterns_never_blacklist.
  intros field pattern Hl. apply elem_of_map_to_list in Hl.
  vm_compute in Hl. apply list_elem_of_In in Hl.
  destruct Hl as [[= <- <-]|[[= <- <-]|[[= <- <-]|[]]]]; reflexivity.
Defined.

Lemma blacklisted_value_is_detected_witness :
  isBlacklisted Samples.sample_blacklist "output"
    (Samples.block_of Samples.sample_root) = true
  /\ Detect string "CONFIG_ERROR" Samples.sample_blacklist
       [ {| api.Type_ := "output";
            api.Blocks := [Samples.block_of Samples.sample_root] |} ] =
     [ {| Type_ := "CONFIG_ERROR";
          Err := errorString "Config for 'output' is blacklisted" |} ].
Proof.
  assert (Hall : Forall (fun segment => strings.Contains segment "." = false)
                   ["console"; "pretty"]) by (repeat constructor).
  assert (Hne : strings.Join ["console"; "pretty"] "." <> EmptyString) by discriminate.
  destruct (blacklisted_value_is_detected string "CONFIG_ERROR" Samples.sample_blacklist
              "output" (Samples.block_of Samples.sample_root) _ ["console"; "pretty"]
              (Samples.literal "true") "true" eq_refl Hall Hne eq_refl) as [Hd _].
  apply Hd; reflexivity.
Defined.

End EvaluatorFacts.

(** ** More on the registry *)
Module RegistryFacts.

Import match_ management Registry.

Section NewConfigBlacklist.

Variable Compile : string -> result Matcher.

Lemma range_compile_first_failure before field pattern cause after : forall list,
  (forall f p, In (f, p) before -> is_Some (compiled Compile p)) ->
  Compile pattern = Fail cause ->
  range_compile Compile (before ++ (field, pattern) :: after) list =
  (None, Some (withMessage cause ("Given expression is not a valid regexp: " ++ pattern))).
Proof.
  induction before as [|[f p] before IH]; intros list Hall Hc; cbn [app range_compile].
  - now rewrite Hc.
  - destruct (Hall f p (or_introl eq_refl)) as [exp Hexp]. unfold compiled in Hexp.
    destruct (Compile p); [|discriminate].
    apply IH; [|exact Hc]. intros f' p' Hin. apply (Hall f'). now right.
Qed.

(** X19: the error returned is the one of the first pattern, in the order
    the settings are ranged over, that does not compile: the patterns after
    it play no part. *)
Theorem first_failure_is_reported before field pattern cause after :
  (forall f p, In (f, p) before -> is_Some (compiled Compile p)) ->
  Compile pattern = Fail cause ->
  forall after',
    NewConfigBlacklist_ranging Compile (before ++ (field, pattern) :: after) =
      (None, Some (withMessage cause
                     ("Given expression is not a valid regexp: " ++ pattern)))
    /\ NewConfigBlacklist_ranging Compile (before ++ (field, pattern) :: after') =
       NewConfigBlacklist_ranging Compile (before ++ (field, pattern) :: after).
Proof.
  intros Hall Hc after'. unfold NewConfigBlacklist_ranging.
  rewrite !(range_compile_first_failure before field pattern cause) by assumption.
  split; reflexivity.
Qed.

(** X20: when every pattern compiles, the registry built does not depend on
    the order the settings are ranged over. *)
Theorem registry_is_independent_of_the_order order1 order2 :
  NoDup order1.*1 ->
  order1 ≡ₚ order2 ->
  (forall f p, In (f, p) order1 -> is_Some (compiled Compile p)) ->
  NewConfigBlacklist_ranging Compile order1 = NewConfigBlacklist_ranging Compile order2
  /\ exists list, NewConfigBlacklist_ranging Compile order1 = (Some list, None).
Proof.
  intros Hnd Hperm Hall.
  assert (Hnd2 : NoDup order2.*1) by now rewrite <- Hperm.
  assert (Hall2 : forall f p, In (f, p) order2 -> is_Some (compiled Compile p)).
  { intros f p Hin. apply (Hall f). now rewrite <- !list_elem_of_In, Hperm, list_elem_of_In. }
  destruct (range_compile_succeeds Compile order1 {| patterns := ∅ |} Hnd Hall)
    as (list1 & Hr1 & Hl1).
  destruct (range_compile_succeeds Compile order2 {| patterns := ∅ |} Hnd2 Hall2)
    as (list2 & Hr2 & Hl2).
  unfold NewConfigBlacklist_ranging. rewrite Hr1, Hr2. split; [|eauto].
  assert (Hp : patterns list1 = patterns list2).
  { apply map_eq. intros field.
    now rewrite Hl1, Hl2, (list_to_map_proper _ _ Hnd Hperm). }
  destruct list1, list2. cbn [patterns] in Hp. now subst.
Qed.

End NewConfigBlacklist.

(** X21: settings unpacked from a map and then compiled: when every
    converted value compiles, [NewConfigBlacklist] on the settings that
    [Unpack] leaves returns a registry that holds, under each key of the
    flattened map and under no other, the matcher of the converted value. *)
Theorem Unpack_then_NewConfigBlacklist
    (Flatten : gmap string any -> gmap string any) (Sprintf_s : any -> string)
    (Compile : string -> result Matcher) f m :
  (forall k v, Flatten m !! k = Some v -> is_Some (compiled Compile (Sprintf_s v))) ->
  exists list,
    NewConfigBlacklist Compile (Unpack Flatten Sprintf_s f (any_map m)).1 =
    (Some list, None)
    /\ forall k,
        patterns list !! k =
        Flatten m !! k ≫= (fun v => compiled Compile (Sprintf_s v)).
Proof.
  intros Hall. cbn [Unpack fst].
  rewrite (range_flattened_fmap Flatten Sprintf_s m) by reflexivity.
  unfold NewConfigBlacklist, NewConfigBlacklist_ranging. cbn [Patterns].
  destruct (range_compile_succeeds Compile (map_to_list (Sprintf_s <$> Flatten m))
              {| patterns := ∅ |}) as (list & Hr & Hl).
  - apply NoDup_fst_map_to_list.
  - intros field pattern Hin.
    apply list_elem_of_In, elem_of_map_to_list in Hin.
    rewrite lookup_fmap in Hin.
    destruct (Flatten m !! field) as [v|] eqn:Hv; [|discriminate].
    injection Hin as <-. now apply (Hall field).
  - exists list. split; [exact Hr|]. intros k.
    rewrite Hl, list_to_map_to_list, lookup_fmap. cbn [patterns].
    destruct (Flatten m !! k); [reflexivity|apply lookup_empty].
Qed.

(** An instance with settings of one pattern. *)
Lemma Unpack_then_NewConfigBlacklist_witness :
  exists list,
    NewConfigBlacklist Samples.compile_literal
      (Unpack Samples.flatten_flat Samples.sprint {| Patterns := ∅ |}
         (any_map {[ "output" := any_string "console" ]})).1 = (Some list, None)
    /\ forall k,
        patterns list !! k =
        Samples.flatten_flat {[ "output" := any_string "console" ]} !! k
        ≫= (fun v => compiled Samples.compile_literal (Samples.sprint v)).
Proof.
  apply (Unpack_then_NewConfigBlacklist Samples.flatten_flat Samples.sprint
           Samples.compile_literal).
  intros k v Hl. apply elem_of_map_to_list in Hl.
  vm_compute in Hl. apply list_elem_of_In in Hl.
  destruct Hl as [[= <- <-]|[]]. vm_compute. eauto.
Defined.

(** Instances of the two theorems on the order of the settings. *)
Lemma first_failure_is_reported_witness :
  NewConfigBlacklist_ranging Samples.compile_literal
    [("output", "console"); ("output.hosts", "("); ("output.file", "(")] =
  (None, Some (withMessage (errorString "missing closing )")
                 "Given expression is not a valid regexp: (")).
Proof.
  refine (proj1 (first_failure_is_reported Samples.compile_literal
            [("output", "console")] "output.hosts" "(" (errorString "missing closing )")
            [("output.file", "(")] _ eq_refl [])).
  intros f p [[= <- <-]|[]]. vm_compute. eauto.
Defined.

Lemma registry_is_independent_of_the_order_witness :
  NewConfigBlacklist_ranging Samples.compile_literal
    [("output", "console"); ("output.hosts", "example")] =
  NewConfigBlacklist_ranging Samples.compile_literal
    [("output.hosts", "example"); ("output", "console")].
Proof.
  refine (proj1 (registry_is_independent_of_the_order Samples.compile_literal
            [("output", "console"); ("output.hosts", "example")]
            [("output.hosts", "example"); ("output", "console")] _ _ _)).
  - apply NoDup_cons. split; [|apply NoDup_singleton].
    intros Hin. apply list_elem_of_In in Hin. destruct Hin as [[=]|[]].
  - apply perm_swap.
  - intros f p [[= <- <-]|[[= <- <-]|[]]]; vm_compute; eauto.
Defined.

End RegistryFacts.
